(** * CodeReviewer: a shallow embedding of [Codereviewer.py]

    The reviewer object of the Python source is a record threaded through a
    small state-and-exception monad; every [check_*] method of the class is a
    computation in that monad.  The parser ([ast.parse]), the style checker
    ([pycodestyle]) and [inspect.cleandoc] are collaborators from outside the
    repository and are taken as parameters. *)

From Stdlib Require Import String Ascii List ZArith Lia Bool Arith.
From Stdlib Require Import DecimalString Decimal.
From stdpp Require Import gmap strings list.

Local Open Scope nat_scope.
Local Open Scope stdpp_scope.

(** ** Python [str] methods the rules rely on

    Source text is modelled over the 7-bit ASCII alphabet, one [ascii] per
    character. *)
Module PyStr.

Definition len (s : string) : nat := String.length s.

(** [str.isspace] on one ASCII character: TAB, LF, VT, FF, CR, the four
    separators FS GS RS US, and SPACE. *)
Definition isspace (c : ascii) : bool :=
  let n := nat_of_ascii c in
  ((9 <=? n) && (n <=? 13)) || ((28 <=? n) && (n <=? 32)).

Definition is_upper (c : ascii) : bool :=
  let n := nat_of_ascii c in (65 <=? n) && (n <=? 90).

Definition is_lower (c : ascii) : bool :=
  let n := nat_of_ascii c in (97 <=? n) && (n <=? 122).

Definition is_digit (c : ascii) : bool :=
  let n := nat_of_ascii c in (48 <=? n) && (n <=? 57).

Definition is_alnum (c : ascii) : bool :=
  is_upper c || is_lower c || is_digit c.

Definition is_underscore (c : ascii) : bool := Ascii.eqb c "_".

Fixpoint forallb (p : ascii -> bool) (s : string) : bool :=
  match s with
  | EmptyString => true
  | String c s' => p c && forallb p s'
  end.

Fixpoint existsb (p : ascii -> bool) (s : string) : bool :=
  match s with
  | EmptyString => false
  | String c s' => p c || existsb p s'
  end.

(** [s.startswith(p)] *)
Fixpoint startswith (p s : string) : bool :=
  match p with
  | EmptyString => true
  | String a p' =>
      match s with
      | EmptyString => false
      | String b s' => Ascii.eqb a b && startswith p' s'
      end
  end.

(** [sub in s] *)
Fixpoint contains (sub s : string) : bool :=
  startswith sub s ||
  match s with
  | EmptyString => false
  | String _ s' => contains sub s'
  end.

(** [s.endswith(p)] *)
Fixpoint endswith (p s : string) : bool :=
  String.eqb p s ||
  match s with
  | EmptyString => false
  | String _ s' => endswith p s'
  end.

(** [s.lstrip()] and [s.lstrip(' ')] *)
Fixpoint lstrip_with (p : ascii -> bool) (s : string) : string :=
  match s with
  | EmptyString => EmptyString
  | String c s' => if p c then lstrip_with p s' else s
  end.

(** [s.rstrip()] *)
Fixpoint rstrip_with (p : ascii -> bool) (s : string) : string :=
  match s with
  | EmptyString => EmptyString
  | String c s' =>
      match rstrip_with p s' with
      | EmptyString => if p c then EmptyString else String c EmptyString
      | r => String c r
      end
  end.

Definition lstrip (s : string) : string := lstrip_with isspace s.
Definition rstrip (s : string) : string := rstrip_with isspace s.
Definition strip (s : string) : string := rstrip (lstrip s).
Definition lstrip_spaces (s : string) : string :=
  lstrip_with (Ascii.eqb " ") s.

(** [s.upper()] *)
Definition upper_char (c : ascii) : ascii :=
  if is_lower c then ascii_of_nat (nat_of_ascii c - 32) else c.

Fixpoint upper (s : string) : string :=
  match s with
  | EmptyString => EmptyString
  | String c s' => String (upper_char c) (upper s')
  end.

(** [s.isupper()]: no lowercase letter and at least one uppercase one. *)
Definition isupper (s : string) : bool :=
  negb (existsb is_lower s) && existsb is_upper s.

(** [s.count(c)] for a one-character needle. *)
Fixpoint count (c : ascii) (s : string) : nat :=
  match s with
  | EmptyString => 0
  | String d s' => (if Ascii.eqb c d then 1 else 0) + count c s'
  end.

(** [s.split(sep)] for a one-character separator; never the empty list. *)
Fixpoint split (sep : ascii) (s : string) : list string :=
  match s with
  | EmptyString => [EmptyString]
  | String c s' =>
      if Ascii.eqb c sep then EmptyString :: split sep s'
      else match split sep s' with
           | [] => [String c EmptyString]
           | w :: ws => String c w :: ws
           end
  end.

(** [s.split(sep)[0]] *)
Definition split_head (sep : ascii) (s : string) : string :=
  match split sep s with
  | [] => EmptyString
  | w :: _ => w
  end.

(** [str(n)] for an [int] *)
Definition of_nat (n : nat) : string :=
  NilZero.string_of_uint (Nat.to_uint n).

Definition of_Z (z : Z) : string :=
  match z with
  | Z0 => "0"
  | Zpos p => of_nat (Pos.to_nat p)
  | Zneg p => "-" +:+ of_nat (Pos.to_nat p)
  end.

End PyStr.

(** ** The syntax tree of Python's [ast] module

    [ast.parse] builds objects of some eighty classes.  A node is modelled as
    its class (with the attributes that are plain data), its line number and
    its child nodes, each tagged with the name of the field that holds it and
    listed in the order of [_fields], which is the order [ast.iter_child_nodes]
    yields them in. *)
Module Ast.

(** The value held by an [ast.Constant].  A finite [float] is
    [mantissa * 2 ^ exponent]. *)
Inductive constant :=
| CNone
| CBool (b : bool)
| CInt (z : Z)
| CFloat (mantissa exponent : Z)
| CFloatInf
| CComplex
| CStr (s : string)
| CBytes
| CEllipsis.

Inductive ast_class :=
(* mod *)
| ast_Module | ast_Interactive | ast_Expression
(* stmt *)
| ast_FunctionDef (name : string)
| ast_AsyncFunctionDef (name : string)
| ast_ClassDef (name : string)
| ast_Return | ast_Delete | ast_Assign | ast_AugAssign | ast_AnnAssign
| ast_For | ast_AsyncFor | ast_While | ast_If | ast_With | ast_AsyncWith
| ast_Match | ast_Raise | ast_Try | ast_TryStar | ast_Assert
| ast_Import
| ast_ImportFrom (module : option string)
| ast_Global (names : list string)
| ast_Nonlocal (names : list string)
| ast_Expr | ast_Pass | ast_Break | ast_Continue
(* expr *)
| ast_BoolOp | ast_NamedExpr | ast_BinOp | ast_UnaryOp | ast_Lambda
| ast_IfExp | ast_Dict | ast_Set | ast_ListComp | ast_SetComp
| ast_DictComp | ast_GeneratorExp | ast_Await | ast_Yield | ast_YieldFrom
| ast_Compare | ast_Call | ast_FormattedValue | ast_JoinedStr
| ast_Constant (value : constant)
| ast_Attribute (attr : string)
| ast_Subscript | ast_Starred
| ast_Name (id : string)
| ast_List | ast_Tuple | ast_Slice
(* expr_context *)
| ast_Load | ast_Store | ast_Del
(* boolop, operator, unaryop, cmpop: And, Add, Not, Eq, ... *)
| ast_operator (symbol : string)
(* the remaining helper classes *)
| ast_comprehension | ast_ExceptHandler | ast_arguments
| ast_arg (name : string)
| ast_keyword
| ast_alias (name : string) (asname : option string)
| ast_withitem | ast_match_case | ast_pattern.

#[warnings="-register-all"]
Inductive node :=
| Node (cls : ast_class) (lineno : nat) (children : list (string * node)).

Definition cls (n : node) : ast_class := let 'Node c _ _ := n in c.
Definition lineno (n : node) : nat := let 'Node _ l _ := n in l.
Definition children (n : node) : list (string * node) :=
  let 'Node _ _ ch := n in ch.

(** Which classes carry [lineno]: statements, expressions, handlers,
    [arg], [keyword] and [alias]; the field is unused on the others. *)
Definition has_lineno (c : ast_class) : bool :=
  match c with
  | ast_Module | ast_Interactive | ast_Expression
  | ast_Load | ast_Store | ast_Del | ast_operator _
  | ast_comprehension | ast_arguments | ast_withitem | ast_match_case => false
  | _ => true
  end.

(** [hasattr(node, 'body')], and whether the attribute is a list. *)
Inductive body_kind := NoBody | BodyList | BodyNode.

Definition body_attr (c : ast_class) : body_kind :=
  match c with
  | ast_Module | ast_Interactive
  | ast_FunctionDef _ | ast_AsyncFunctionDef _ | ast_ClassDef _
  | ast_For | ast_AsyncFor | ast_While | ast_If | ast_With | ast_AsyncWith
  | ast_Try | ast_TryStar | ast_ExceptHandler | ast_match_case => BodyList
  | ast_Expression | ast_Lambda | ast_IfExp => BodyNode
  | _ => NoBody
  end.

(** *** Object identity

    Python compares nodes by identity.  A node object is identified by the
    child indices leading to it, innermost first; the root is []. *)
Abbreviation path := (list nat).
Abbreviation obj := (list nat * node)%type.

Definition root (t : node) : obj := ([], t).

(** The children of an object, each with the name of its field. *)
Definition child_objs (o : obj) : list (string * obj) :=
  imap (fun i tc => (fst tc, (i :: fst o, snd tc))) (children (snd o)).

(** [ast.iter_child_nodes(node)] *)
Definition iter_child_nodes (o : obj) : list obj :=
  map snd (child_objs o).

(** [node.<f>] for a field that holds nodes: the list itself for a list
    field, zero or one element for a plain or optional field.  A node built
    by the parser has every field of its class; a field that is not there is
    read as empty. *)
Definition attr (f : string) (o : obj) : list obj :=
  map snd (filter (fun tc => String.eqb (fst tc) f) (child_objs o)).

Fixpoint count_nodes (n : node) : nat :=
  match n with
  | Node _ _ ch =>
      S ((fix go (l : list (string * node)) : nat :=
            match l with
            | [] => 0
            | (_, c) :: l' => count_nodes c + go l'
            end) ch)
  end.

(** [ast.walk(node)]: a queue that starts with the node; the left end is
    popped, its children are pushed to the right end, and it is yielded.
    The queue is popped once per node of the tree. *)
Fixpoint walk_queue (fuel : nat) (todo : list obj) : list obj :=
  match fuel, todo with
  | S fuel', o :: rest => o :: walk_queue fuel' (rest ++ iter_child_nodes o)
  | _, _ => []
  end.

Definition walk (o : obj) : list obj := walk_queue (count_nodes (snd o)) [o].

(** The node that a path denotes below [n]. *)
Fixpoint node_at (n : node) (p : path) : option node :=
  match p with
  | [] => Some n
  | i :: q =>
      match node_at n q with
      | Some m => snd <$> children m !! i
      | None => None
      end
  end.

(** The objects strictly above path [p] in tree [t], nearest first. *)
Fixpoint ancestors (t : node) (p : path) : list obj :=
  match p with
  | [] => []
  | _ :: q =>
      match node_at t q with
      | Some m => (q, m) :: ancestors t q
      | None => ancestors t q
      end
  end.

(** All objects of a subtree, parents before children. *)
Fixpoint subtree (p : path) (n : node) : list obj :=
  match n with
  | Node _ _ ch =>
      (p, n) ::
      (fix go (i : nat) (l : list (string * node)) : list obj :=
         match l with
         | [] => []
         | (_, m) :: l' => subtree (i :: p) m ++ go (S i) l'
         end) 0 ch
  end.

End Ast.
Export Ast.

(** ** Python's [re.match] on the anchored patterns of the naming rules

    Each pattern of the source is a sequence of character classes, each taken
    once, or repeated with [*] or [+], between [^] and [$]. *)
Module Re.

Inductive quantifier := Once | Star | Plus.

Definition item := (quantifier * (ascii -> bool))%type.

(** [$] matches at the end of the string and just before a final newline. *)
Definition at_end (s : string) : bool :=
  match s with
  | EmptyString => true
  | String c EmptyString => Ascii.eqb c "010"
  | _ => false
  end.

(** Zero or more characters of class [p], then whatever [k] accepts. *)
Fixpoint star (p : ascii -> bool) (k : string -> bool) (s : string) : bool :=
  k s ||
  match s with
  | String c s' => p c && star p k s'
  | EmptyString => false
  end.

Fixpoint re_match (pattern : list item) : string -> bool :=
  match pattern with
  | [] => at_end
  | (Once, p) :: rest => fun s =>
      match s with
      | String c s' => p c && re_match rest s'
      | EmptyString => false
      end
  | (Star, p) :: rest => star p (re_match rest)
  | (Plus, p) :: rest => fun s =>
      match s with
      | String c s' => p c && star p (re_match rest) s'
      | EmptyString => false
      end
  end.

Import PyStr.

(** [r'^[A-Z][a-zA-Z0-9]+$'] *)
Definition class_name_pattern : list item :=
  [(Once, is_upper); (Plus, is_alnum)].

(** [r'^[a-z_][a-z0-9_]*$'] *)
Definition snake_name_pattern : list item :=
  [(Once, fun c => is_lower c || is_underscore c);
   (Star, fun c => is_lower c || is_digit c || is_underscore c)].

(** [r'^[A-Z0-9_]+$'] *)
Definition constant_name_pattern : list item :=
  [(Plus, fun c => is_upper c || is_digit c || is_underscore c)].

End Re.

(** ** The reviewer object and the monad of its methods *)

Inductive exn := ValueError | AttributeError.

(** [self.issues], [self.lines], [self.tree], and the [parent] attribute that
    [check_line_numbers] sets on the nodes of the tree, keyed by the identity
    of the node that carries it. *)
Record CodeReviewer := mkCodeReviewer {
  issues : list string;
  lines : list string;
  tree : option node;
  parent_attr : gmap path obj
}.

(** [CodeReviewer()] *)
Definition new_reviewer : CodeReviewer := mkCodeReviewer [] [] None ∅.

(** How a method call ends.  [Diverges] stands for a loop of the source that
    never ends. *)
Inductive outcome (A : Type) :=
| Returns (a : A)
| Raises (e : exn)
| Diverges.
Arguments Returns {A} a.
Arguments Raises {A} e.
Arguments Diverges {A}.

(** A method is run on the state of the object; whatever way it ends, the
    mutations it made stay. *)
Definition M (A : Type) : Type := CodeReviewer -> outcome A * CodeReviewer.

#[global] Instance M_ret : MRet M := fun A a r => (Returns a, r).

#[global] Instance M_bind : MBind M := fun A B f m r =>
  match m r with
  | (Returns a, r') => f a r'
  | (Raises e, r') => (Raises e, r')
  | (Diverges, r') => (Diverges, r')
  end.

Definition raise {A} (e : exn) : M A := fun r => (Raises e, r).
Definition diverge {A} : M A := fun r => (Diverges, r).
(** [self.tree], which [analyze] tests before it runs the rules. *)
Definition self_tree_or_none : M (option node) := fun r => (Returns (tree r), r).

(** The number of nodes that carry a [parent] attribute. *)
Definition count_parent_attrs : M nat := fun r =>
  (Returns (size (parent_attr r)), r).

(** [self.issues.append(msg)] *)
Definition append (msg : string) : M unit := fun r =>
  (Returns tt, mkCodeReviewer (issues r ++ [msg]) (lines r) (tree r) (parent_attr r)).

(** [child.parent = node] *)
Definition set_parent (child node : obj) : M unit := fun r =>
  (Returns tt,
   mkCodeReviewer (issues r) (lines r) (tree r) (<[fst child := node]> (parent_attr r))).

(** [getattr(node, 'parent', None)] *)
Definition getattr_parent (node : obj) : M (option obj) := fun r =>
  (Returns (parent_attr r !! fst node), r).

(** [self.tree] as the argument of [ast.walk], which fails on [None]. *)
Definition self_tree : M obj := fun r =>
  match tree r with
  | Some t => (Returns (root t), r)
  | None => (Raises AttributeError, r)
  end.

Definition self_lines : M (list string) := fun r => (Returns (lines r), r).

Definition when (b : bool) (m : M unit) : M unit := if b then m else mret tt.

(** [for x in l: body] *)
Fixpoint for_ {A} (l : list A) (body : A -> M unit) : M unit :=
  match l with
  | [] => mret tt
  | x :: l' => body x ;; for_ l' body
  end.

(** A [for] loop that carries a local variable from one round to the next. *)
Fixpoint for_carrying {A S} (l : list A) (s : S) (body : S -> A -> M S) : M S :=
  match l with
  | [] => mret s
  | x :: l' => s' ← body s x; for_carrying l' s' body
  end.

(** [enumerate(l, start=1)] *)
Definition enumerate1 {A} (l : list A) : list (nat * A) :=
  imap (fun i x => (S i, x)) l.

Definition run {A} (m : M A) (r : CodeReviewer) : outcome A * CodeReviewer := m r.

(** [get_issues] hands out [self.issues]. *)
Definition get_issues (r : CodeReviewer) : list string := issues r.

(** ** Collaborators from outside the repository *)

(** [ast.parse(code)] returns a tree or raises [SyntaxError]; [e] is the
    text of the exception. *)
Inductive parse_result :=
| Parsed (t : node)
| SyntaxError (e : string).

Record collaborators := {
  (** [ast.parse] *)
  ast_parse : string -> parse_result;
  (** [checker.report.total_errors] once [pycodestyle] has checked the text *)
  total_errors : string -> nat;
  (** [inspect.cleandoc], which [ast.get_docstring] applies *)
  cleandoc : string -> string;
  (** [str] of the [float] [mantissa * 2 ^ exponent] *)
  float_str : Z -> Z -> string
}.

(** ** Helpers that read a node *)

Definition is_FunctionDef (c : ast_class) : bool :=
  match c with ast_FunctionDef _ => true | _ => false end.
Definition is_any_FunctionDef (c : ast_class) : bool :=
  match c with ast_FunctionDef _ | ast_AsyncFunctionDef _ => true | _ => false end.
Definition is_ClassDef (c : ast_class) : bool :=
  match c with ast_ClassDef _ => true | _ => false end.
Definition is_Store (c : ast_class) : bool :=
  match c with ast_Store => true | _ => false end.
Definition is_Load (c : ast_class) : bool :=
  match c with ast_Load => true | _ => false end.
Definition is_loop (c : ast_class) : bool :=
  match c with ast_For | ast_While => true | _ => false end.
Definition is_branch (c : ast_class) : bool :=
  match c with ast_If | ast_For | ast_While | ast_Try => true | _ => false end.
Definition is_mutable_literal (c : ast_class) : bool :=
  match c with ast_List | ast_Dict | ast_Set => true | _ => false end.
Definition is_Return (c : ast_class) : bool :=
  match c with ast_Return => true | _ => false end.
Definition is_Break (c : ast_class) : bool :=
  match c with ast_Break => true | _ => false end.
Definition is_Continue (c : ast_class) : bool :=
  match c with ast_Continue => true | _ => false end.

(** [isinstance(node.<f>, C)] for a field holding one node. *)
Definition field_isinstance (f : string) (C : ast_class -> bool) (o : obj) : bool :=
  match attr f o with
  | x :: _ => C (cls (snd x))
  | [] => false
  end.

(** [node.id] when [node] is a [Name] whose [ctx] is of class [C]. *)
Definition name_in_ctx (C : ast_class -> bool) (o : obj) : option string :=
  match cls (snd o) with
  | ast_Name id => if field_isinstance "ctx" C o then Some id else None
  | _ => None
  end.

(** [node.func.id] when [node] is a [Call] whose [func] is a [Name]. *)
Definition called_name (o : obj) : option string :=
  match cls (snd o) with
  | ast_Call =>
      match attr "func" o with
      | f :: _ => match cls (snd f) with ast_Name id => Some id | _ => None end
      | [] => None
      end
  | _ => None
  end.

(** [node.lineno] on a node whose class has the attribute. *)
Definition line (o : obj) : string := PyStr.of_nat (lineno (snd o)).

(** [getattr(node, 'lineno', '?')] *)
Definition line_or_unknown (o : obj) : string :=
  if has_lineno (cls (snd o)) then line o else "?".

(** [l.index(x)]: nodes are compared by identity. *)
Fixpoint index_of (l : list obj) (x : obj) : option nat :=
  match l with
  | [] => None
  | y :: l' => if bool_decide (fst y = fst x) then Some 0 else S <$> index_of l' x
  end.

(** [ast.get_docstring(node)] on a function or class definition. *)
Definition get_docstring (E : collaborators) (o : obj) : option string :=
  match attr "body" o with
  | first :: _ =>
      match cls (snd first) with
      | ast_Expr =>
          match attr "value" first with
          | v :: _ =>
              match cls (snd v) with
              | ast_Constant (CStr text) => Some (cleandoc E text)
              | _ => None
              end
          | [] => None
          end
      | _ => None
      end
  | [] => None
  end.

(** [not x] for [x] a string or [None]. *)
Definition falsy (x : option string) : bool :=
  match x with
  | None => true
  | Some s => String.eqb s ""
  end.

(** The walk [while temp: parents.append(temp); temp = getattr(temp,
    'parent', None)].  A chain that follows more links than there are
    [parent] attributes passes twice through some node and never ends. *)
Fixpoint parents_loop (fuel : nat) (temp : obj) : M (list obj) :=
  match fuel with
  | 0 => diverge
  | S fuel' =>
      p ← getattr_parent temp;
      match p with
      | None => mret [temp]
      | Some temp' => rest ← parents_loop fuel' temp'; mret (temp :: rest)
      end
  end.

Definition parents_of (node : obj) : M (list obj) :=
  n ← count_parent_attrs; parents_loop (S n) node.

(** ** The methods of [CodeReviewer] *)

Definition load_code (code : string) : M unit := fun r =>
  (Returns tt,
   mkCodeReviewer (issues r) (PyStr.split "010" code) (tree r) (parent_attr r)).

(** A successful parse binds [self.tree] to a tree of new objects, none of
    which has a [parent] attribute yet; a failed one leaves [self.tree] as
    it was. *)
Definition parse_code (E : collaborators) (code : string) : M unit :=
  match ast_parse E code with
  | Parsed t => fun r => (Returns tt, mkCodeReviewer (issues r) (lines r) (Some t) ∅)
  | SyntaxError e => append ("SyntaxError: " +:+ e)
  end.

Definition check_style (E : collaborators) (code : string) : M unit :=
  when (0 <? total_errors E code) (append "Style issues found.").

Definition check_missing_docstrings (E : collaborators) : M unit :=
  t ← self_tree;
  for_ (walk t) (fun node =>
    match cls (snd node) with
    | ast_FunctionDef name =>
        when (falsy (get_docstring E node))
          (append ("Missing docstring in function '" +:+ name +:+ "'."))
    | _ => mret tt
    end;;
    match cls (snd node) with
    | ast_ClassDef name =>
        when (falsy (get_docstring E node))
          (append ("Missing docstring in class '" +:+ name +:+ "'."))
    | _ => mret tt
    end).

Definition check_class_names : M unit :=
  t ← self_tree;
  for_ (walk t) (fun node =>
    match cls (snd node) with
    | ast_ClassDef name =>
        when (negb (Re.re_match Re.class_name_pattern name))
          (append ("Class '" +:+ name +:+ "' naming style."))
    | _ => mret tt
    end).

Definition check_function_names : M unit :=
  t ← self_tree;
  for_ (walk t) (fun node =>
    match cls (snd node) with
    | ast_FunctionDef name =>
        when (negb (Re.re_match Re.snake_name_pattern name))
          (append ("Function '" +:+ name +:+ "' naming style."))
    | _ => mret tt
    end).

Definition check_variable_names : M unit :=
  t ← self_tree;
  for_ (walk t) (fun node =>
    match name_in_ctx is_Store node with
    | Some id =>
        when (negb (Re.re_match Re.snake_name_pattern id))
          (append ("Variable '" +:+ id +:+ "' naming style."))
    | None => mret tt
    end).

Definition check_constant_names : M unit :=
  t ← self_tree;
  for_ (walk t) (fun node =>
    match cls (snd node) with
    | ast_Assign =>
        for_ (attr "targets" node) (fun t =>
          match cls (snd t) with
          | ast_Name id =>
              when (PyStr.isupper id)
                (when (negb (Re.re_match Re.constant_name_pattern id))
                   (append ("Constant '" +:+ id +:+ "' naming style.")))
          | _ => mret tt
          end)
    | _ => mret tt
    end).

(** [n.name] for the aliases [n] in [node.names]. *)
Definition alias_names (node : obj) : list string :=
  omap (fun n => match cls (snd n) with
                 | ast_alias name _ => Some name
                 | _ => None
                 end) (attr "names" node).

(** The list [imports] once the first loop of [check_unused_imports] has
    ended. *)
Definition collect_imports (nodes : list obj) : list string :=
  foldl (fun imports node =>
    let imports :=
      match cls (snd node) with
      | ast_Import =>
          foldl (fun imports name => imports ++ [PyStr.split_head "." name])
                imports (alias_names node)
      | _ => imports
      end in
    match cls (snd node) with
    | ast_ImportFrom (Some module) => imports ++ [PyStr.split_head "." module]
    | ast_ImportFrom None => imports ++ [""]
    | _ => imports
    end) [] nodes.

(** The set [used_imports] once the second loop has ended. *)
Definition collect_used (nodes : list obj) : gset string :=
  foldl (fun used_imports node =>
    match name_in_ctx is_Load node with
    | Some id => used_imports ∪ {[id]}
    | None => used_imports
    end) ∅ nodes.

Definition check_unused_imports : M unit :=
  t ← self_tree;
  let imports := collect_imports (walk t) in
  let used_imports := collect_used (walk t) in
  for_ imports (fun i =>
    when (negb (bool_decide (i ∈ used_imports)))
      (append ("Unused import '" +:+ i +:+ "'."))).

Definition builtins : gset string :=
  list_to_set
  ["abs";"all";"any";"ascii";"bin";"bool";"breakpoint";"bytearray";"bytes";
   "callable";"chr";"classmethod";"compile";"complex";"delattr";"dict";"dir";
   "divmod";"enumerate";"eval";"exec";"filter";"float";"format";"frozenset";
   "getattr";"globals";"hasattr";"hash";"help";"hex";"id";"input";"int";
   "isinstance";"issubclass";"iter";"len";"list";"locals";"map";"max";
   "memoryview";"min";"next";"object";"oct";"open";"ord";"pow";"print";
   "property";"range";"repr";"reversed";"round";"set";"setattr";"slice";
   "sorted";"staticmethod";"str";"sum";"super";"tuple";"type";"vars";"zip"].

Definition check_redefined_builtins : M unit :=
  t ← self_tree;
  for_ (walk t) (fun node =>
    match cls (snd node) with
    | ast_FunctionDef name =>
        when (bool_decide (name ∈ builtins))
          (append ("Redefining builtin '" +:+ name +:+ "'."))
    | _ => mret tt
    end;;
    match name_in_ctx is_Store node with
    | Some id =>
        when (bool_decide (id ∈ builtins))
          (append ("Redefining builtin '" +:+ id +:+ "'."))
    | None => mret tt
    end).

Definition magic : gset string :=
  list_to_set
  ["__init__";"__str__";"__repr__";"__len__";"__getitem__";"__setitem__";
   "__delitem__";"__iter__";"__next__";"__call__";"__contains__";"__enter__";
   "__exit__";"__add__";"__sub__";"__mul__";"__truediv__";"__floordiv__";
   "__mod__";"__pow__";"__and__";"__or__";"__xor__";"__lt__";"__le__";
   "__gt__";"__ge__";"__eq__";"__ne__"].

Definition check_magic_methods : M unit :=
  t ← self_tree;
  for_ (walk t) (fun node =>
    match cls (snd node) with
    | ast_FunctionDef name =>
        when (PyStr.startswith "__" name && PyStr.endswith "__" name
              && negb (bool_decide (name ∈ magic)))
          (append ("Unknown magic method '" +:+ name +:+ "'."))
    | _ => mret tt
    end).

(** The [while parent:] loop of [check_unreachable_code].  [index] raises
    [ValueError] when [node] is not in [parent.body], and a [body] that is
    not a list has no [index]. *)
Fixpoint unreachable_loop (fuel : nat) (node parent : obj) : M unit :=
  match fuel with
  | 0 => diverge
  | S fuel' =>
      match body_attr (cls (snd parent)) with
      | BodyList =>
          match index_of (attr "body" parent) node with
          | Some index_of_return =>
              for_ (drop (index_of_return + 1) (attr "body" parent)) (fun n =>
                if has_lineno (cls (snd n))
                then append ("Unreachable code after return in line " +:+ line n +:+ ".")
                else raise AttributeError)
          | None => raise ValueError
          end
      | BodyNode => raise AttributeError
      | NoBody =>
          p ← getattr_parent parent;
          match p with
          | Some parent' => unreachable_loop fuel' node parent'
          | None => mret tt
          end
      end
  end.

Definition check_unreachable_code : M unit :=
  t ← self_tree;
  for_ (walk t) (fun node =>
    match cls (snd node) with
    | ast_Return =>
        n ← count_parent_attrs; unreachable_loop (S n) node node
    | _ => mret tt
    end).

Definition check_too_many_branches : M unit :=
  t ← self_tree;
  for_ (walk t) (fun node =>
    match cls (snd node) with
    | ast_FunctionDef name | ast_AsyncFunctionDef name =>
        let branches :=
          foldl (fun branches subnode =>
                   if is_branch (cls (snd subnode)) then branches + 1 else branches)
                0 (walk node) in
        when (10 <? branches)
          (append ("Too many branches (" +:+ PyStr.of_nat branches
                   +:+ ") in function '" +:+ name +:+ "'."))
    | _ => mret tt
    end).

(** [node.args.args] and [node.args.defaults] *)
Definition args_field (f : string) (node : obj) : list obj :=
  attr "args" node ≫= attr f.

Definition check_too_many_arguments : M unit :=
  t ← self_tree;
  for_ (walk t) (fun node =>
    match cls (snd node) with
    | ast_FunctionDef name | ast_AsyncFunctionDef name =>
        let argc := length (args_field "args" node) in
        when (5 <? argc)
          (append ("Function '" +:+ name +:+ "' has too many args ("
                   +:+ PyStr.of_nat argc +:+ ")."))
    | _ => mret tt
    end).

Definition check_nested_functions : M unit :=
  t ← self_tree;
  for_ (walk t) (fun node =>
    match cls (snd node) with
    | ast_FunctionDef name =>
        for_ (attr "body" node) (fun inner =>
          match cls (snd inner) with
          | ast_FunctionDef inner_name =>
              append ("Nested function '" +:+ inner_name +:+ "' in '" +:+ name +:+ "'.")
          | _ => mret tt
          end)
    | _ => mret tt
    end).

Definition check_empty_blocks : M unit :=
  t ← self_tree;
  for_ (walk t) (fun node =>
    match body_attr (cls (snd node)) with
    | BodyList =>
        when (length (attr "body" node) =? 0)
          (append ("Empty block at line " +:+ line_or_unknown node +:+ "."))
    | _ => mret tt
    end).

Definition check_break_outside_loop : M unit :=
  t ← self_tree;
  for_ (walk t) (fun node =>
    match cls (snd node) with
    | ast_Break =>
        parents ← parents_of node;
        let found_loop := existsb (fun p => is_loop (cls (snd p))) parents in
        when (negb found_loop)
          (append ("Break outside loop at line " +:+ line node +:+ "."))
    | _ => mret tt
    end).

Definition check_continue_outside_loop : M unit :=
  t ← self_tree;
  for_ (walk t) (fun node =>
    match cls (snd node) with
    | ast_Continue =>
        parents ← parents_of node;
        let found_loop := existsb (fun p => is_loop (cls (snd p))) parents in
        when (negb found_loop)
          (append ("Continue outside loop at line " +:+ line node +:+ "."))
    | _ => mret tt
    end).

Definition check_raise_without_exception : M unit :=
  t ← self_tree;
  for_ (walk t) (fun node =>
    match cls (snd node) with
    | ast_Raise =>
        when (length (attr "exc" node) =? 0)
          (append ("Raise without exception at line " +:+ line node +:+ "."))
    | _ => mret tt
    end).

Definition check_return_outside_function : M unit :=
  t ← self_tree;
  for_ (walk t) (fun node =>
    match cls (snd node) with
    | ast_Return =>
        parents ← parents_of node;
        let func_parent :=
          existsb (fun p => is_any_FunctionDef (cls (snd p))) parents in
        when (negb func_parent)
          (append ("Return outside function at line " +:+ line node +:+ "."))
    | _ => mret tt
    end).

Definition check_global_usage : M unit :=
  t ← self_tree;
  for_ (walk t) (fun node =>
    match cls (snd node) with
    | ast_Global names =>
        for_ names (fun name =>
          append ("Global variable usage '" +:+ name +:+ "' at line "
                  +:+ line node +:+ "."))
    | _ => mret tt
    end).

Definition check_nonlocal_usage : M unit :=
  t ← self_tree;
  for_ (walk t) (fun node =>
    match cls (snd node) with
    | ast_Nonlocal names =>
        for_ names (fun name =>
          append ("Nonlocal usage '" +:+ name +:+ "' at line " +:+ line node +:+ "."))
    | _ => mret tt
    end).

Definition check_mutable_defaults : M unit :=
  t ← self_tree;
  for_ (walk t) (fun node =>
    match cls (snd node) with
    | ast_FunctionDef name | ast_AsyncFunctionDef name =>
        for_ (args_field "defaults" node) (fun d =>
          when (is_mutable_literal (cls (snd d)))
            (append ("Mutable default argument in '" +:+ name +:+ "'.")))
    | _ => mret tt
    end).

Definition check_print_statements : M unit :=
  t ← self_tree;
  for_ (walk t) (fun node =>
    match called_name node with
    | Some id =>
        when (String.eqb id "print")
          (append ("Print statement at line " +:+ line node +:+ "."))
    | None => mret tt
    end).

Definition check_exec_usage : M unit :=
  t ← self_tree;
  for_ (walk t) (fun node =>
    match called_name node with
    | Some id =>
        when (String.eqb id "exec") (append ("Exec usage at line " +:+ line node +:+ "."))
    | None => mret tt
    end).

Definition check_eval_usage : M unit :=
  t ← self_tree;
  for_ (walk t) (fun node =>
    match called_name node with
    | Some id =>
        when (String.eqb id "eval") (append ("Eval usage at line " +:+ line node +:+ "."))
    | None => mret tt
    end).

(** [node.parent] raises when the attribute was never set. *)
Definition check_pass_statements : M unit :=
  t ← self_tree;
  for_ (walk t) (fun node =>
    match cls (snd node) with
    | ast_Pass =>
        p ← getattr_parent node;
        match p with
        | None => raise AttributeError
        | Some node_parent =>
            match cls (snd node_parent) with
            | ast_FunctionDef _ => mret tt
            | ast_ClassDef _ => mret tt
            | ast_If => mret tt
            | _ => append ("Pass statement at line " +:+ line node
                           +:+ " might be unnecessary.")
            end
        end
    | _ => mret tt
    end).

Definition check_comment_format : M unit :=
  lines ← self_lines;
  for_ (enumerate1 lines) (fun '(i, line) =>
    let s := PyStr.strip line in
    when (PyStr.startswith "#" s)
      (when (PyStr.len s =? 1)
         (append ("Empty comment at line " +:+ PyStr.of_nat i +:+ ".")))).

(** The tuple [(0,1,-1,2,-2,0.0,1.0,-1.0,2.0,-2.0)]; an [int] and a [float]
    of the same value are equal, so five numbers are listed. *)
Definition plain_numbers : list Z := [0; 1; -1; 2; -2]%Z.

Definition float_equals (mantissa exponent k : Z) : bool :=
  if (0 <=? exponent)%Z then (mantissa * 2 ^ exponent =? k)%Z
  else (mantissa =? k * 2 ^ (- exponent))%Z.

(** [node.value in l] when [node.value] is an [int] (which [bool] is) or a
    [float]; [None] for the other constants. *)
Definition number_in (l : list Z) (v : constant) : option bool :=
  match v with
  | CBool b => Some (existsb (Z.eqb (if b then 1 else 0)%Z) l)
  | CInt z => Some (existsb (Z.eqb z) l)
  | CFloat m e => Some (existsb (float_equals m e) l)
  | CFloatInf => Some false
  | _ => None
  end.

(** [str(node.value)] for a number; the interpreter's limit on the digits of
    an [int] is not modelled. *)
Definition number_str (E : collaborators) (v : constant) : string :=
  match v with
  | CBool true => "True"
  | CBool false => "False"
  | CInt z => PyStr.of_Z z
  | CFloat m e => float_str E m e
  | CFloatInf => "inf"
  | _ => ""
  end.

Definition check_magic_number (E : collaborators) : M unit :=
  t ← self_tree;
  for_ (walk t) (fun node =>
    match cls (snd node) with
    | ast_Constant value =>
        match number_in plain_numbers value with
        | Some false =>
            append ("Magic number '" +:+ number_str E value +:+ "' at line "
                    +:+ line_or_unknown node +:+ ".")
        | _ => mret tt
        end
    | _ => mret tt
    end).

Definition check_boolean_traps : M unit :=
  t ← self_tree;
  for_ (walk t) (fun node =>
    match cls (snd node) with
    | ast_If =>
        when (field_isinstance "test"
                (fun c => match c with ast_Constant (CBool _) => true | _ => false end)
                node)
          (append ("Boolean literal if at line " +:+ line node +:+ "."))
    | _ => mret tt
    end).

Definition check_todo_comments : M unit :=
  lines ← self_lines;
  for_ (enumerate1 lines) (fun '(i, line) =>
    when (PyStr.contains "TODO" (PyStr.upper line))
      (append ("TODO comment at line " +:+ PyStr.of_nat i +:+ "."))).

Definition check_long_lines : M unit :=
  lines ← self_lines;
  for_ (enumerate1 lines) (fun '(i, line) =>
    when (79 <? PyStr.len line)
      (append ("Long line (" +:+ PyStr.of_nat (PyStr.len line) +:+ ") at line "
               +:+ PyStr.of_nat i +:+ "."))).

Definition check_multiple_imports_on_one_line : M unit :=
  lines ← self_lines;
  for_ (enumerate1 lines) (fun '(i, line) =>
    when (PyStr.startswith "import" (PyStr.strip line))
      (when (PyStr.contains "," line)
         (append ("Multiple imports on one line at line " +:+ PyStr.of_nat i +:+ ".")))).

Definition check_bad_indentation : M unit :=
  lines ← self_lines;
  for_ (enumerate1 lines) (fun '(i, line) =>
    let leading := PyStr.len line - PyStr.len (PyStr.lstrip_spaces line) in
    when (negb (leading mod 4 =? 0) && negb (String.eqb (PyStr.strip line) ""))
      (append ("Bad indentation at line " +:+ PyStr.of_nat i +:+ "."))).

Definition check_semicolons : M unit :=
  lines ← self_lines;
  for_ (enumerate1 lines) (fun '(i, line) =>
    when (PyStr.contains ";" line && negb (PyStr.startswith "#" (PyStr.strip line)))
      (append ("Semicolon at line " +:+ PyStr.of_nat i +:+ "."))).

Definition check_tabs : M unit :=
  lines ← self_lines;
  for_ (enumerate1 lines) (fun '(i, line) =>
    when (PyStr.contains (String "009" "") line)
      (append ("Tab character at line " +:+ PyStr.of_nat i +:+ "."))).

Definition check_trailing_whitespace : M unit :=
  lines ← self_lines;
  for_ (enumerate1 lines) (fun '(i, line) =>
    when (negb (String.eqb (PyStr.rstrip line) line))
      (append ("Trailing whitespace at line " +:+ PyStr.of_nat i +:+ "."))).

Definition check_multiple_statements : M unit :=
  lines ← self_lines;
  for_ (enumerate1 lines) (fun '(i, line) =>
    when (1 <? PyStr.count ";" (PyStr.strip line))
      (append ("Multiple statements at line " +:+ PyStr.of_nat i +:+ "."))).

Definition check_exception_handling : M unit :=
  t ← self_tree;
  for_ (walk t) (fun node =>
    match cls (snd node) with
    | ast_Try =>
        when (length (attr "handlers" node) =? 0)
          (append ("Try without except at line " +:+ line node +:+ "."))
    | _ => mret tt
    end).

Definition check_empty_exceptions : M unit :=
  t ← self_tree;
  for_ (walk t) (fun node =>
    match cls (snd node) with
    | ast_ExceptHandler =>
        when (length (attr "type" node) =? 0)
          (append ("Catch-all except at line " +:+ line node +:+ "."))
    | _ => mret tt
    end).

Definition check_useless_else_on_loop : M unit :=
  t ← self_tree;
  for_ (walk t) (fun node =>
    when (is_loop (cls (snd node)))
      (when (negb (length (attr "orelse" node) =? 0))
         (append ("Else on loop at line " +:+ line node +:+ ".")))).

Definition check_direct_exit_calls : M unit :=
  t ← self_tree;
  for_ (walk t) (fun node =>
    match called_name node with
    | Some id =>
        when (String.eqb id "exit" || String.eqb id "quit")
          (append ("Direct " +:+ id +:+ " call at line " +:+ line node +:+ "."))
    | None => mret tt
    end).

Definition check_recursion_limit : M unit := mret tt.

Definition check_lambda_usage : M unit :=
  t ← self_tree;
  for_ (walk t) (fun node =>
    match cls (snd node) with
    | ast_Lambda => append ("Lambda usage at line " +:+ line node +:+ ".")
    | _ => mret tt
    end).

Definition check_format_vs_fstring : M unit :=
  lines ← self_lines;
  for_ (enumerate1 lines) (fun '(i, line) =>
    when (PyStr.contains ".format(" line && PyStr.contains "print" line)
      (append ("Consider f-string at line " +:+ PyStr.of_nat i +:+ "."))).

Definition check_mutable_class_vars : M unit :=
  t ← self_tree;
  for_ (walk t) (fun node =>
    match cls (snd node) with
    | ast_ClassDef _ =>
        for_ (attr "body" node) (fun b =>
          match cls (snd b) with
          | ast_Assign =>
              for_ (attr "targets" b) (fun t =>
                match cls (snd t) with
                | ast_Name id =>
                    when (field_isinstance "value" is_mutable_literal b)
                      (append ("Mutable class var '" +:+ id +:+ "' at line "
                               +:+ line b +:+ "."))
                | _ => mret tt
                end)
          | _ => mret tt
          end)
    | _ => mret tt
    end).

Definition check_inconsistent_return : M unit :=
  t ← self_tree;
  for_ (walk t) (fun node =>
    match cls (snd node) with
    | ast_FunctionDef name | ast_AsyncFunctionDef name =>
        let returns :=
          foldl (fun returns sub =>
                   match cls (snd sub) with
                   | ast_Return =>
                       if negb (length (attr "value" sub) =? 0)
                       then returns ++ [true] else returns ++ [false]
                   | _ => returns
                   end) [] (walk node) in
        when (1 <? size (list_to_set returns : gset bool))
          (append ("Inconsistent return in '" +:+ name +:+ "'."))
    | _ => mret tt
    end).

(** [str(node.module)] *)
Definition module_str (module : option string) : string :=
  match module with
  | Some m => m
  | None => "None"
  end.

Definition check_wildcard_imports : M unit :=
  t ← self_tree;
  for_ (walk t) (fun node =>
    match cls (snd node) with
    | ast_ImportFrom module =>
        for_ (alias_names node) (fun alias_name =>
          when (String.eqb alias_name "*")
            (append ("Wildcard import from '" +:+ module_str module +:+ "' at line "
                     +:+ line node +:+ ".")))
    | _ => mret tt
    end).

Definition check_multiple_consecutive_blank_lines : M unit :=
  lines ← self_lines;
  for_carrying (enumerate1 lines) 0 (fun blank_count '(i, line) =>
    if String.eqb (PyStr.strip line) ""
    then mret (blank_count + 1)
    else
      when (2 <? blank_count)
        (append ("Multiple blank lines before line " +:+ PyStr.of_nat i +:+ "."));;
      mret 0);;
  mret tt.

Definition check_very_large_functions : M unit :=
  t ← self_tree;
  for_ (walk t) (fun node =>
    match cls (snd node) with
    | ast_FunctionDef name =>
        when (50 <? length (attr "body" node))
          (append ("Large function '" +:+ name +:+ "' with "
                   +:+ PyStr.of_nat (length (attr "body" node)) +:+ " lines."))
    | _ => mret tt
    end).

Definition check_line_numbers : M unit :=
  t ← self_tree;
  for_ (walk t) (fun node =>
    for_ (iter_child_nodes node) (fun child => set_parent child node)).

Definition analyze (E : collaborators) (code : string) : M unit :=
  load_code code;;
  parse_code E code;;
  t ← self_tree_or_none;
  match t with
  | None => mret tt
  | Some _ =>
      check_line_numbers;;
      check_style E code;;
      check_missing_docstrings E;;
      check_class_names;;
      check_function_names;;
      check_variable_names;;
      check_constant_names;;
      check_unused_imports;;
      check_redefined_builtins;;
      check_magic_methods;;
      check_unreachable_code;;
      check_too_many_branches;;
      check_too_many_arguments;;
      check_nested_functions;;
      check_empty_blocks;;
      check_break_outside_loop;;
      check_continue_outside_loop;;
      check_raise_without_exception;;
      check_return_outside_function;;
      check_global_usage;;
      check_nonlocal_usage;;
      check_mutable_defaults;;
      check_print_statements;;
      check_exec_usage;;
      check_eval_usage;;
      check_pass_statements;;
      check_comment_format;;
      check_magic_number E;;
      check_boolean_traps;;
      check_todo_comments;;
      check_long_lines;;
      check_multiple_imports_on_one_line;;
      check_bad_indentation;;
      check_semicolons;;
      check_tabs;;
      check_trailing_whitespace;;
      check_multiple_statements;;
      check_exception_handling;;
      check_empty_exceptions;;
      check_useless_else_on_loop;;
      check_direct_exit_calls;;
      check_recursion_limit;;
      check_lambda_usage;;
      check_format_vs_fstring;;
      check_mutable_class_vars;;
      check_inconsistent_return;;
      check_wildcard_imports;;
      check_multiple_consecutive_blank_lines;;
      check_very_large_functions
  end.

(** ** Trees of sample programs

    The builders list the child nodes of a class in the order of its
    [_fields]; fields that are empty in every sample are left out. *)
Module Build.

Definition many (f : string) (l : list node) : list (string * node) :=
  map (pair f) l.

Definition mk_Module (body : list node) : node :=
  Node ast_Module 0 (many "body" body).

Definition mk_Name (l : nat) (id : string) (ctx : ast_class) : node :=
  Node (ast_Name id) l [("ctx", Node ctx 0 [])].

Definition mk_Constant (l : nat) (v : constant) : node :=
  Node (ast_Constant v) l [].

Definition mk_arg (l : nat) (name : string) : node := Node (ast_arg name) l [].

Definition mk_arguments (args defaults : list node) : node :=
  Node ast_arguments 0 (many "args" args ++ many "defaults" defaults).

Definition mk_FunctionDef (l : nat) (name : string) (args : node)
    (body : list node) : node :=
  Node (ast_FunctionDef name) l (("args", args) :: many "body" body).

Definition mk_ClassDef (l : nat) (name : string) (body : list node) : node :=
  Node (ast_ClassDef name) l (many "body" body).

Definition mk_Return (l : nat) (value : option node) : node :=
  Node ast_Return l (many "value" (option_list value)).

Definition mk_If (l : nat) (test : node) (body orelse : list node) : node :=
  Node ast_If l (("test", test) :: many "body" body ++ many "orelse" orelse).

Definition mk_For (l : nat) (target iter : node) (body orelse : list node) : node :=
  Node ast_For l
    (("target", target) :: ("iter", iter) :: many "body" body ++ many "orelse" orelse).

Definition mk_Expr (l : nat) (value : node) : node :=
  Node ast_Expr l [("value", value)].

Definition mk_Call (l : nat) (func : node) (args : list node) : node :=
  Node ast_Call l (("func", func) :: many "args" args).

Definition mk_Import (l : nat) (names : list node) : node :=
  Node ast_Import l (many "names" names).

Definition mk_ImportFrom (l : nat) (module : option string) (names : list node) : node :=
  Node (ast_ImportFrom module) l (many "names" names).

Definition mk_alias (l : nat) (name : string) (asname : option string) : node :=
  Node (ast_alias name asname) l [].

Definition mk_Pass (l : nat) : node := Node ast_Pass l [].
Definition mk_Break (l : nat) : node := Node ast_Break l [].
Definition mk_Continue (l : nat) : node := Node ast_Continue l [].

End Build.

Module Samples.
Import Build.

Definition nl : string := String "010" "".

(** [print(0)] *)
Definition src_print : string := "print(0)" +:+ nl.
Definition tree_print : node :=
  mk_Module [mk_Expr 1 (mk_Call 1 (mk_Name 1 "print" ast_Load) [mk_Constant 1 (CInt 0)])].

(** A text the parser rejects. *)
Definition src_malformed : string := "def f(:" +:+ nl.
Definition msg_malformed : string := "invalid syntax (<unknown>, line 1)".

(** A function that returns from the [else] branch of an [if]. *)
Definition src_else_return : string :=
  "def f(x):" +:+ nl +:+
  "    if x:" +:+ nl +:+
  "        pass" +:+ nl +:+
  "    else:" +:+ nl +:+
  "        return" +:+ nl.
Definition tree_else_return : node :=
  mk_Module
    [mk_FunctionDef 1 "f" (mk_arguments [mk_arg 1 "x"] [])
       [mk_If 2 (mk_Name 2 "x" ast_Load) [mk_Pass 3] [mk_Return 5 None]]].

(** The two texts of the unreachable-code scenario. *)
Definition src_return_then_call : string :=
  "def f():" +:+ nl +:+ "  return" +:+ nl +:+ "  x()" +:+ nl.
Definition tree_return_then_call : node :=
  mk_Module
    [mk_FunctionDef 1 "f" (mk_arguments [] [])
       [mk_Return 2 None; mk_Expr 3 (mk_Call 3 (mk_Name 3 "x" ast_Load) [])]].

Definition src_return_only : string :=
  "def f():" +:+ nl +:+ "  return" +:+ nl.
Definition tree_return_only : node :=
  mk_Module [mk_FunctionDef 1 "f" (mk_arguments [] []) [mk_Return 2 None]].

(** A [break] in an [if] in a [for], and a [break] at top level. *)
Definition src_break_in_if_in_for : string :=
  "for x in y:" +:+ nl +:+ "    if x:" +:+ nl +:+ "        break" +:+ nl.
Definition tree_break_in_if_in_for : node :=
  mk_Module
    [mk_For 1 (mk_Name 1 "x" ast_Store) (mk_Name 1 "y" ast_Load)
       [mk_If 2 (mk_Name 2 "x" ast_Load) [mk_Break 3] []] []].

Definition src_break_top : string := "break" +:+ nl.
Definition tree_break_top : node := mk_Module [mk_Break 1].

Definition src_continue_top : string := "continue" +:+ nl.
Definition tree_continue_top : node := mk_Module [mk_Continue 1].

(** Imports that are used through an alias or through the imported name. *)
Definition src_import_as : string := "import x as y" +:+ nl +:+ "y" +:+ nl.
Definition tree_import_as : node :=
  mk_Module [mk_Import 1 [mk_alias 1 "x" (Some "y")]; mk_Expr 2 (mk_Name 2 "y" ast_Load)].

Definition src_from_import : string := "from m import f" +:+ nl +:+ "f" +:+ nl.
Definition tree_from_import : node :=
  mk_Module [mk_ImportFrom 1 (Some "m") [mk_alias 1 "f" None];
           mk_Expr 2 (mk_Name 2 "f" ast_Load)].

(** [class <name>: pass] with a docstring-free body, and the same for a
    function. *)
Definition tree_class (name : string) : node :=
  mk_Module [mk_ClassDef 1 name [mk_Pass 2]].
Definition tree_def (name : string) : node :=
  mk_Module [mk_FunctionDef 1 name (mk_arguments [] []) [mk_Pass 2]].

Definition table : list (string * node) :=
  [(src_print, tree_print);
   (src_else_return, tree_else_return);
   (src_return_then_call, tree_return_then_call);
   (src_return_only, tree_return_only);
   (src_break_in_if_in_for, tree_break_in_if_in_for);
   (src_break_top, tree_break_top);
   (src_continue_top, tree_continue_top);
   (src_import_as, tree_import_as);
   (src_from_import, tree_from_import)].

(** The collaborators on the sample texts: the parser answers with the tree
    of the table and rejects [src_malformed]; the style checker objects to
    the two texts indented by two spaces and to the malformed one; no
    sample has a docstring or a [float]. *)
Definition sample : collaborators :=
  {| ast_parse code :=
       match list_find (fun e => String.eqb (fst e) code) table with
       | Some (_, (_, t)) => Parsed t
       | None => SyntaxError msg_malformed
       end;
     total_errors code :=
       if String.eqb code src_return_then_call || String.eqb code src_return_only
          || String.eqb code src_malformed
       then 1 else 0;
     cleandoc s := s;
     float_str m e := PyStr.of_Z (m * 2 ^ e) +:+ ".0" |}.


End Samples.

(** ** Notions used to state the properties *)

(** The objects of a list of subtrees, and the number of their nodes. *)
Definition subtrees (todo : list obj) : list obj :=
  todo ≫= fun o => subtree (fst o) (snd o).

Definition total_nodes (todo : list obj) : nat :=
  sum_list_with (fun o => count_nodes (snd o)) todo.

(** The assignments [child.parent = node] that [check_line_numbers] makes
    while it visits [nodes], and their effect on the [parent] attributes. *)
Definition links (nodes : list obj) : list (path * obj) :=
  nodes ≫= fun o => (fun c => (fst c, o)) <$> iter_child_nodes o.

Definition set_parents (s : gmap path obj) (l : list (path * obj)) : gmap path obj :=
  foldl (fun s kv => <[fst kv := snd kv]> s) s l.

(** The reviewer with other diagnostics, or other [parent] attributes. *)
Definition with_issues (l : list string) (r : CodeReviewer) : CodeReviewer :=
  mkCodeReviewer l (lines r) (tree r) (parent_attr r).

Definition with_parent_attr (s : gmap path obj) (r : CodeReviewer) : CodeReviewer :=
  mkCodeReviewer (issues r) (lines r) (tree r) s.

(** The reviewer once [l] has been appended to its diagnostics. *)
Definition add_issues (l : list string) (r : CodeReviewer) : CodeReviewer :=
  with_issues (issues r ++ l) r.

(** The paths of a node below the root and of those of its ancestors that
    are below the root. *)
Fixpoint below_root (p : path) : list path :=
  match p with
  | [] => []
  | _ :: q => p :: below_root q
  end.

(** The [parent] attributes of the nodes of [t] once [check_line_numbers] has
    run on the newly parsed tree. *)
Definition linked (t : node) : gmap path obj :=
  set_parents ∅ (links (walk (root t))).

(** The reviewer once [parse_code] has bound [self.tree] to [t]. *)
Definition parsed (t : node) (r : CodeReviewer) : CodeReviewer :=
  mkCodeReviewer (issues r) (lines r) (Some t) ∅.

(** No object above [o] in [t] is of a class in [C]. *)
Definition none_above (C : ast_class -> bool) (t : node) (o : obj) : bool :=
  negb (existsb (fun p => C (cls (snd p))) (ancestors t (fst o))).

(** What the two loop rules are to report on [t]: one diagnostic for each
    [Break] (or [Continue]) that has no [For] or [While] above it, in the
    order of the traversal. *)
Definition breaks_outside_loop (t : node) : list string :=
  walk (root t) ≫= fun o =>
    if is_Break (cls (snd o)) && none_above is_loop t o
    then ["Break outside loop at line " +:+ line o +:+ "."] else [].

Definition continues_outside_loop (t : node) : list string :=
  walk (root t) ≫= fun o =>
    if is_Continue (cls (snd o)) && none_above is_loop t o
    then ["Continue outside loop at line " +:+ line o +:+ "."] else [].

(** The reviewer with [l0] put in front of its diagnostics. *)
Definition prepend (l0 : list string) (r : CodeReviewer) : CodeReviewer :=
  with_issues (l0 ++ issues r) r.

(** A method is [append_only] for [P] when, however it ends, the diagnostics
    it leaves are those it found followed by new ones that satisfy [P], and
    when what it does is not affected by the diagnostics it found. *)
Definition append_only {A} (P : string -> Prop) (m : M A) : Prop :=
  (forall r, exists l, issues (snd (run m r)) = issues r ++ l /\ Forall P l) /\
  (forall l0 r, run m (prepend l0 r) = (fst (run m r), prepend l0 (snd (run m r)))).

(** *** Kinds of diagnostics

    A diagnostic is a plain string; the rule it comes from shows in how it
    starts.  [spec_catalog] lists the openings of the diagnostics of the
    rules that sections 4.3 and 4.5 of the specification enumerate,
    [further_rules] those of the rules of the source that the specification
    does not mention. *)
Definition spec_catalog : list string :=
  ["Style issues found.";
   (* naming *)
   "Class '"; "Function '"; "Variable '"; "Constant '"; "Redefining builtin '";
   "Unknown magic method '";
   (* structural complexity; too many arguments starts like the naming of
      functions *)
   "Too many branches ("; "Large function '";
   (* control flow *)
   "Break outside loop"; "Continue outside loop"; "Return outside function";
   "Raise without exception"; "Unreachable code after return";
   (* hygiene and safety *)
   "Exec usage"; "Eval usage"; "Lambda usage"; "Mutable default argument";
   "Mutable class var '"; "Catch-all except"; "Try without except"; "Direct ";
   (* style of the lines *)
   "Long line ("; "Tab character"; "Trailing whitespace"; "Multiple statements";
   "Multiple blank lines"; "Empty comment"; "TODO comment";
   "Multiple imports on one line"; "Bad indentation";
   (* documentation *)
   "Missing docstring in ";
   (* miscellaneous *)
   "Magic number '"; "Boolean literal if"; "Inconsistent return"; "Else on loop";
   "Wildcard import"; "Unused import '"].

Definition further_rules : list string :=
  ["Print statement"; "Semicolon at line"; "Global variable usage";
   "Nonlocal usage"; "Nested function '"; "Pass statement"; "Empty block";
   "Consider f-string"].

Definition of_kind (openings : list string) (msg : string) : Prop :=
  existsb (fun p => PyStr.startswith p msg) openings = true.

(** A diagnostic of one of the rules of the source. *)
Definition catalogued (msg : string) : Prop :=
  of_kind (spec_catalog ++ further_rules) msg.

(** The rules in the order in which [analyze] calls them. *)
Definition rule_catalog (E : collaborators) (code : string) : list (M unit) :=
  [check_line_numbers;
   check_style E code;
   check_missing_docstrings E;
   check_class_names;
   check_function_names;
   check_variable_names;
   check_constant_names;
   check_unused_imports;
   check_redefined_builtins;
   check_magic_methods;
   check_unreachable_code;
   check_too_many_branches;
   check_too_many_arguments;
   check_nested_functions;
   check_empty_blocks;
   check_break_outside_loop;
   check_continue_outside_loop;
   check_raise_without_exception;
   check_return_outside_function;
   check_global_usage;
   check_nonlocal_usage;
   check_mutable_defaults;
   check_print_statements;
   check_exec_usage;
   check_eval_usage;
   check_pass_statements;
   check_comment_format;
   check_magic_number E;
   check_boolean_traps;
   check_todo_comments;
   check_long_lines;
   check_multiple_imports_on_one_line;
   check_bad_indentation;
   check_semicolons;
   check_tabs;
   check_trailing_whitespace;
   check_multiple_statements;
   check_exception_handling;
   check_empty_exceptions;
   check_useless_else_on_loop;
   check_direct_exit_calls;
   check_recursion_limit;
   check_lambda_usage;
   check_format_vs_fstring;
   check_mutable_class_vars;
   check_inconsistent_return;
   check_wildcard_imports;
   check_multiple_consecutive_blank_lines;
   check_very_large_functions].

(** One rule after the other; an exception ends the run. *)
Definition run_all (rules : list (M unit)) : M unit :=
  foldr (fun rule rest => rule ;; rest) (mret tt) rules.

(** Every method that [analyze] may call, in the order of the calls. *)
Definition steps (E : collaborators) (code : string) : list (M unit) :=
  load_code code :: parse_code E code :: rule_catalog E code.

(** [analyze] once the text is loaded and parsed: the test of [self.tree]
    and the rules. *)
Definition analyze_rules (E : collaborators) (code : string) : M unit :=
  t ← self_tree_or_none;
  match t with
  | None => mret tt
  | Some _ => run_all (rule_catalog E code)
  end.

(** The reviewer once [load_code] and a successful [parse_code] have run. *)
Definition loaded (code : string) (t : node) (r : CodeReviewer) : CodeReviewer :=
  mkCodeReviewer (issues r) (PyStr.split "010" code) (Some t) ∅.

(** The diagnostics of the unreachable-code rule in a list. *)
Definition unreachable_findings (l : list string) : list string :=
  List.filter (PyStr.startswith "Unreachable code") l.

(** The pattern for class names in the words of the specification: a
    leading uppercase letter, then letters and digits. *)
Definition spec_class_name (s : string) : bool :=
  match s with
  | String c rest => PyStr.is_upper c && PyStr.forallb PyStr.is_alnum rest
  | EmptyString => false
  end.

(** What the two naming rules are to report on [t]. *)
Definition class_name_findings (t : node) : list string :=
  walk (root t) ≫= fun o =>
    match cls (snd o) with
    | ast_ClassDef name =>
        if Re.re_match Re.class_name_pattern name then []
        else ["Class '" +:+ name +:+ "' naming style."]
    | _ => []
    end.

Definition function_name_findings (t : node) : list string :=
  walk (root t) ≫= fun o =>
    match cls (snd o) with
    | ast_FunctionDef name =>
        if Re.re_match Re.snake_name_pattern name then []
        else ["Function '" +:+ name +:+ "' naming style."]
    | _ => []
    end.

(** The end of a name that [$] lets pass: nothing, or one newline. *)
Definition dollar_tail (tail : string) : Prop :=
  tail = "" \/ tail = Samples.nl.

(** The names that the unused-import rule records for a node: for [import],
    the start, up to the first dot, of the name of each module imported; for
    [from ... import], the start of the name of the module, or the empty
    string when there is none. *)
Definition recorded_imports (o : obj) : list string :=
  match cls (snd o) with
  | ast_Import => PyStr.split_head "." <$> alias_names o
  | ast_ImportFrom (Some module) => [PyStr.split_head "." module]
  | ast_ImportFrom None => [""]
  | _ => []
  end.

Definition imported_modules (t : node) : list string :=
  walk (root t) ≫= recorded_imports.

(** The names read anywhere in the tree. *)
Definition names_read (t : node) : list string :=
  omap (name_in_ctx is_Load) (walk (root t)).

(** What the unused-import rule is to report on [t]. *)
Definition unused_imports (t : node) : list string :=
  imported_modules t ≫= fun i =>
    if bool_decide (i ∈ names_read t) then []
    else ["Unused import '" +:+ i +:+ "'."].


(** A method touches [only_issues] when, however it ends, the lines, the
    tree and the [parent] attributes are as it found them. *)
Definition only_issues {A} (m : M A) : Prop :=
  forall r, exists l, snd (run m r) = add_issues l r.

(** What [check_return_outside_function] is to report on [t]: one diagnostic
    for each [Return] above which there is no function definition. *)
Definition returns_outside_function (t : node) : list string :=
  walk (root t) ≫= fun o =>
    if is_Return (cls (snd o)) && none_above is_any_FunctionDef t o
    then ["Return outside function at line " +:+ line o +:+ "."] else [].

(** The classes of parent under which [check_pass_statements] lets a [Pass]
    be. *)
Definition shelters_pass (c : ast_class) : bool :=
  match c with
  | ast_FunctionDef _ | ast_ClassDef _ | ast_If => true
  | _ => false
  end.

(** What [check_pass_statements] is to report on [t]: one diagnostic for
    each [Pass] whose parent is not a function definition, a class definition
    or an [If]. *)
Definition needless_passes (t : node) : list string :=
  walk (root t) ≫= fun o =>
    match cls (snd o), ancestors t (fst o) with
    | ast_Pass, node_parent :: _ =>
        if shelters_pass (cls (snd node_parent)) then []
        else ["Pass statement at line " +:+ line o +:+ " might be unnecessary."]
    | _, _ => []
    end.

(** A method [returns_with_tree] when, on a reviewer that holds a tree, it
    returns and has changed nothing but the diagnostics. *)
Definition returns_with_tree {A} (m : M A) : Prop :=
  forall r, tree r <> None -> exists a l, run m r = (Returns a, add_issues l r).

(** Whether [body_attr] says that the class has a list of statements as
    [body]. *)
Definition has_body_list (c : ast_class) : bool :=
  match body_attr c with
  | BodyList => true
  | _ => false
  end.

(** Every [Return] that is the child of some node is held in the [body] of
    that node, and the statements of that [body] carry a line number. *)
Definition returns_in_bodies (t : node) : bool :=
  forallb (fun o =>
    forallb (fun fc =>
      if is_Return (cls (snd (snd fc)))
      then has_body_list (cls (snd o)) && String.eqb (fst fc) "body"
           && forallb (fun c => has_lineno (cls (snd c))) (attr "body" o)
      else true) (child_objs o)) (walk (root t)).

(** The reviewer holds tree [t], and [check_line_numbers] has run on it. *)
Definition holds_linked (t : node) (r : CodeReviewer) : Prop :=
  tree r = Some t /\ parent_attr r = linked t.

(** A rule that, on such a reviewer, returns and only appends. *)
Definition returns_on (t : node) (m : M unit) : Prop :=
  forall r, holds_linked t r -> exists l, run m r = (Returns tt, add_issues l r).

(** The characters of an identifier written in ASCII. *)
Definition identifier_chars (id : string) : bool :=
  PyStr.forallb (fun c => PyStr.is_alnum c || PyStr.is_underscore c) id.

(** The tree of [MAX_SIZE = 1]. *)
Definition tree_constant : node :=
  Build.mk_Module
    [Node ast_Assign 1
       [("targets", Build.mk_Name 1 "MAX_SIZE" ast_Store);
        ("value", Build.mk_Constant 1 (CInt 1))]].

(** Collaborators that know the empty text, for which the parser builds a
    module without statements and the style checker has no objection. *)
Definition sample_empty : collaborators :=
  {| ast_parse code :=
       if String.eqb code "" then Parsed (Node ast_Module 0 [])
       else SyntaxError "invalid syntax";
     total_errors code := 0;
     cleandoc s := s;
     float_str m e := PyStr.of_Z (m * 2 ^ e) +:+ ".0" |}.

(** The number [branches] that [check_too_many_branches] computes for a
    function: the [If], [For], [While] and [Try] nodes of its subtree. *)
Definition branches (o : obj) : nat :=
  foldl (fun branches subnode =>
           if is_branch (cls (snd subnode)) then branches + 1 else branches)
        0 (walk o).

(** What [check_too_many_branches] is to report on [t]. *)
Definition too_many_branches (t : node) : list string :=
  walk (root t) ≫= fun o =>
    match cls (snd o) with
    | ast_FunctionDef name | ast_AsyncFunctionDef name =>
        if 10 <? branches o
        then ["Too many branches (" +:+ PyStr.of_nat (branches o)
              +:+ ") in function '" +:+ name +:+ "'."]
        else []
    | _ => []
    end.

(** The nodes of a list that are branching constructs, counted. *)
Definition tally (l : list obj) : nat :=
  sum_list_with (fun o => if is_branch (cls (snd o)) then 1 else 0) l.

(** ** The string methods on examples *)

Example split_sample :
  PyStr.split "010" ("a" +:+ String "010" "b" +:+ String "010" "") = ["a"; "b"; ""].
Proof. reflexivity. Qed.

Example strip_sample : PyStr.strip "  # x  " = "# x".
Proof. reflexivity. Qed.

Example of_nat_sample : PyStr.of_nat 42 = "42" /\ PyStr.of_nat 0 = "0".
Proof. split; reflexivity. Qed.

Example long_line_boundary :
  (79 <? PyStr.len (String.concat "" (replicate 79 "a"))) = false /\
  (79 <? PyStr.len (String.concat "" (replicate 80 "a"))) = true.
Proof. split; reflexivity. Qed.

(** ** Running the monad *)

Lemma run_bind {A B} (m : M A) (f : A -> M B) r :
  run (m ≫= f) r =
  match run m r with
  | (Returns a, r') => run (f a) r'
  | (Raises e, r') => (Raises e, r')
  | (Diverges, r') => (Diverges, r')
  end.
Proof. reflexivity. Qed.

Lemma run_bind_returns {A B} (m : M A) (f : A -> M B) r a r' :
  run m r = (Returns a, r') -> run (m ≫= f) r = run (f a) r'.
Proof. intros H. by rewrite run_bind, H. Qed.

Lemma run_ret {A} (a : A) r : run (mret a) r = (Returns a, r).
Proof. reflexivity. Qed.

Lemma run_for_cons {A} (x : A) l body r :
  run (for_ (x :: l) body) r = run (body x ;; for_ l body) r.
Proof. reflexivity. Qed.

Lemma with_issues_id r : with_issues (issues r) r = r.
Proof. by destruct r. Qed.

Lemma add_issues_nil r : add_issues [] r = r.
Proof. unfold add_issues. rewrite app_nil_r. apply with_issues_id. Qed.

Lemma add_issues_app l1 l2 r :
  add_issues l2 (add_issues l1 r) = add_issues (l1 ++ l2) r.
Proof. unfold add_issues, with_issues. simpl. by rewrite app_assoc. Qed.

(** ** The tree and its traversal *)

Lemma node_induction (P : node -> Prop) :
  (forall c l ch, Forall (fun tc => P (snd tc)) ch -> P (Node c l ch)) ->
  forall n, P n.
Proof.
  intros step. fix IH 1. intros [c l ch]. apply step.
  induction ch as [|[f m] ch IHch]; constructor; [apply IH | apply IHch].
Qed.

Lemma iter_child_nodes_lookup (o c : obj) :
  c ∈ iter_child_nodes o <->
  exists i f, children (snd o) !! i = Some (f, snd c) /\ fst c = i :: fst o.
Proof.
  unfold iter_child_nodes, child_objs. rewrite list_elem_of_fmap. split.
  - intros [[f c'] [-> Hin]]. apply list_elem_of_lookup in Hin as [i Hi].
    rewrite list_lookup_imap in Hi.
    destruct (children (snd o) !! i) as [[f' m]|] eqn:Hch; simplify_eq/=.
    exists i, f. done.
  - intros (i & f & Hch & Hp). exists (f, c). split; [done|].
    apply list_elem_of_lookup. exists i. rewrite list_lookup_imap, Hch. simpl.
    destruct c as [p m]. simpl in *. by subst.
Qed.

Lemma subtree_unfold p n :
  subtree p n = (p, n) :: subtrees (iter_child_nodes (p, n)).
Proof.
  destruct n as [c l ch]. simpl. f_equal.
  unfold subtrees, iter_child_nodes, child_objs. simpl.
  change ch with (children (Node c l ch)) at 1. simpl.
  assert (G : forall (i : nat) (g : nat -> nat),
    (forall j, g j = i + j) ->
    (fix go (i : nat) (l0 : list (string * node)) {struct l0} : list obj :=
       match l0 with
       | [] => []
       | (_, m) :: l' => subtree (i :: p) m ++ go (S i) l'
       end) i ch =
    map snd (imap (fun j tc => (fst tc, (g j :: p, snd tc))) ch)
      ≫= (fun o => subtree (fst o) (snd o))).
  { induction ch as [|[f m] ch IHch]; intros i g Hg; [done|].
    cbn [imap map]. rewrite bind_cons. simpl. rewrite Hg, Nat.add_0_r. f_equal.
    rewrite (IHch (S i) (g ∘ S)); [done|]. intros j. simpl. rewrite Hg. lia. }
  apply (G 0 (fun j => j)). done.
Qed.

Lemma count_nodes_unfold p n :
  count_nodes n = S (total_nodes (iter_child_nodes (p, n))).
Proof.
  destruct n as [c l ch]. simpl. f_equal.
  unfold total_nodes, iter_child_nodes, child_objs. simpl.
  assert (G : forall g : nat -> string * node -> string * obj,
    (forall i tc, snd (snd (g i tc)) = snd tc) ->
    (fix go (l0 : list (string * node)) : nat :=
       match l0 with
       | [] => 0
       | (_, m) :: l' => count_nodes m + go l'
       end) ch =
    sum_list_with (fun o : obj => count_nodes (snd o)) (map snd (imap g ch))).
  { induction ch as [|[f m] ch IHch]; intros g Hg; [done|].
    cbn [imap map sum_list_with]. rewrite Hg. simpl. f_equal. apply IHch.
    intros i tc. apply Hg. }
  apply G. done.
Qed.

Lemma subtrees_app l1 l2 : subtrees (l1 ++ l2) = subtrees l1 ++ subtrees l2.
Proof. unfold subtrees. apply bind_app. Qed.

Lemma total_nodes_app l1 l2 : total_nodes (l1 ++ l2) = total_nodes l1 + total_nodes l2.
Proof. apply sum_list_with_app. Qed.

Lemma subtrees_cons o todo :
  subtrees (o :: todo) = o :: subtrees (iter_child_nodes o) ++ subtrees todo.
Proof.
  unfold subtrees at 1. rewrite bind_cons. destruct o as [p n]. simpl.
  by rewrite subtree_unfold.
Qed.

Lemma total_nodes_cons o todo :
  total_nodes (o :: todo) = S (total_nodes (iter_child_nodes o) + total_nodes todo).
Proof.
  unfold total_nodes at 1. simpl. destruct o as [p n]. simpl.
  by rewrite (count_nodes_unfold p n).
Qed.

Lemma walk_queue_subtrees fuel todo :
  total_nodes todo <= fuel -> walk_queue fuel todo ≡ₚ subtrees todo.
Proof.
  revert todo. induction fuel as [|fuel IH]; intros [|o rest] Hle;
    cbn [walk_queue]; try done.
  - rewrite total_nodes_cons in Hle. lia.
  - rewrite total_nodes_cons in Hle. rewrite subtrees_cons. constructor.
    rewrite IH, subtrees_app; [apply Permutation_app_comm|].
    rewrite total_nodes_app. lia.
Qed.

Lemma walk_subtree o : walk o ≡ₚ subtree (fst o) (snd o).
Proof.
  unfold walk. rewrite walk_queue_subtrees.
  - unfold subtrees. simpl. by rewrite app_nil_r.
  - unfold total_nodes. simpl. lia.
Qed.

Lemma subtree_self p n : (p, n) ∈ subtree p n.
Proof. rewrite subtree_unfold. left. Qed.

Lemma elem_of_subtrees o todo :
  o ∈ subtrees todo <-> exists k, k ∈ todo /\ o ∈ subtree (fst k) (snd k).
Proof.
  unfold subtrees. rewrite list_elem_of_bind. split; intros (k & H1 & H2); eauto.
Qed.

Lemma subtree_child p0 n0 : forall q m i f n,
  (q, m) ∈ subtree p0 n0 -> children m !! i = Some (f, n) ->
  (i :: q, n) ∈ subtree p0 n0.
Proof.
  revert p0. induction n0 as [c l ch IH] using node_induction.
  intros p0 q m i f n Hin Hch.
  rewrite subtree_unfold in Hin |- *. apply elem_of_cons in Hin as [Heq|Hin].
  - simplify_eq. right. apply elem_of_subtrees. exists (i :: p0, n). split.
    + apply iter_child_nodes_lookup. exists i, f. done.
    + apply subtree_self.
  - right. apply elem_of_subtrees in Hin as ([pk k] & Hk & Hin).
    apply elem_of_subtrees. exists (pk, k). split; [done|].
    apply iter_child_nodes_lookup in Hk as (j & g & Hj & Hp). simpl in *.
    rewrite Forall_forall in IH.
    eapply (IH (g, k)); [|exact Hin|exact Hch].
    apply list_elem_of_lookup. eauto.
Qed.

Lemma elem_of_subtree_node_at t : forall p n,
  node_at t p = Some n -> (p, n) ∈ subtree [] t.
Proof.
  induction p as [|i q IH]; intros n Hn; simpl in Hn.
  - simplify_eq. apply subtree_self.
  - destruct (node_at t q) as [m|] eqn:Hq; [|done].
    destruct (children m !! i) as [[f n']|] eqn:Hch; simplify_eq/=.
    eapply subtree_child; eauto.
Qed.

Lemma subtree_path p0 n0 : forall p n,
  (p, n) ∈ subtree p0 n0 -> exists q, p = q ++ p0 /\ node_at n0 q = Some n.
Proof.
  revert p0. induction n0 as [c l ch IH] using node_induction.
  intros p0 p n Hin. rewrite subtree_unfold in Hin.
  apply elem_of_cons in Hin as [Heq|Hin].
  - simplify_eq. by exists [].
  - apply elem_of_subtrees in Hin as ([pk k] & Hk & Hin).
    apply iter_child_nodes_lookup in Hk as (j & g & Hj & Hp). simpl in *. subst pk.
    rewrite Forall_forall in IH.
    destruct (IH (g, k)) with (p0 := j :: p0) (p := p) (n := n) as (q & -> & Hq);
      [apply list_elem_of_lookup; eauto | done |].
    exists (q ++ [j]). split; [by rewrite <- app_assoc|].
    clear -Hq Hj. revert n Hq. induction q as [|i q IHq]; intros n Hq; simpl in *.
    + simplify_eq. by rewrite Hj.
    + destruct (node_at k q) as [m|] eqn:Hm; [|done].
      by rewrite (IHq m eq_refl).
Qed.

Lemma elem_of_subtree t p n :
  (p, n) ∈ subtree [] t <-> node_at t p = Some n.
Proof.
  split.
  - intros (q & -> & Hq)%subtree_path. by rewrite app_nil_r.
  - apply elem_of_subtree_node_at.
Qed.

Lemma elem_of_walk t p n :
  (p, n) ∈ walk (root t) <-> node_at t p = Some n.
Proof. rewrite walk_subtree. apply elem_of_subtree. Qed.

(** *** The [parent] attributes *)

Lemma set_parents_snoc s l kv :
  set_parents s (l ++ [kv]) = <[fst kv := snd kv]> (set_parents s l).
Proof. unfold set_parents. by rewrite foldl_app. Qed.

Lemma set_parents_lookup_None s l k :
  (forall v, (k, v) ∉ l) -> set_parents s l !! k = s !! k.
Proof.
  induction l as [|[k' v'] l IH] using rev_ind; intros Hk; [done|].
  rewrite set_parents_snoc. simpl. rewrite lookup_insert_ne.
  - apply IH. intros v Hin. apply (Hk v). apply elem_of_app. by left.
  - intros ->. apply (Hk v'). apply elem_of_app. right. left.
Qed.

Lemma set_parents_lookup_Some s l k v :
  (k, v) ∈ l -> (forall v', (k, v') ∈ l -> v' = v) ->
  set_parents s l !! k = Some v.
Proof.
  induction l as [|[k' v'] l IH] using rev_ind; intros Hin Hfun.
  { by apply elem_of_nil in Hin. }
  rewrite set_parents_snoc. simpl. destruct (decide (k' = k)) as [->|Hne].
  - rewrite lookup_insert_eq. f_equal. apply Hfun. apply elem_of_app. right. left.
  - rewrite lookup_insert_ne by done. apply IH.
    + apply elem_of_app in Hin as [Hin|Hin]; [done|].
      apply list_elem_of_singleton in Hin. congruence.
    + intros v'' Hin'. apply Hfun. apply elem_of_app. by left.
Qed.

Lemma elem_of_links nodes k v :
  (k, v) ∈ links nodes <-> v ∈ nodes /\ exists c, c ∈ iter_child_nodes v /\ fst c = k.
Proof.
  unfold links. rewrite list_elem_of_bind. split.
  - intros (o & Hin & Ho). apply list_elem_of_fmap in Hin as (c & Heq & Hc).
    simplify_eq. eauto.
  - intros (Hv & c & Hc & <-). exists v. split; [|done].
    apply list_elem_of_fmap. eauto.
Qed.

(** In a linked tree the [parent] attribute of a node other than the root is
    the node one step up, and the root has none. *)
Lemma links_walk t k v :
  (k, v) ∈ links (walk (root t)) <->
  exists i, k = i :: fst v /\ node_at t (fst v) = Some (snd v)
            /\ is_Some (children (snd v) !! i).
Proof.
  rewrite elem_of_links. destruct v as [q m]. rewrite elem_of_walk. simpl. split.
  - intros (Hq & c & (i & f & Hch & Hp)%iter_child_nodes_lookup & <-).
    simpl in *. exists i. rewrite Hch. eauto.
  - intros (i & -> & Hq & [[f n] Hch]). split; [done|].
    exists (i :: q, n). split; [|done]. apply iter_child_nodes_lookup. eauto.
Qed.

Lemma linked_root t s : set_parents s (links (walk (root t))) !! [] = s !! [].
Proof.
  apply set_parents_lookup_None. intros v (i & Hk & _)%links_walk. done.
Qed.

Lemma linked_child t s i q n :
  node_at t (i :: q) = Some n ->
  exists m, node_at t q = Some m /\
            set_parents s (links (walk (root t))) !! (i :: q) = Some (q, m).
Proof.
  intros Hn. simpl in Hn. destruct (node_at t q) as [m|] eqn:Hq; [|done].
  exists m. split; [done|]. apply set_parents_lookup_Some.
  - apply links_walk. exists i. simpl. split_and!; [done..|].
    destruct (children m !! i); [eauto|done].
  - intros [q' m'] (j & Hk & Hq' & _)%links_walk. simpl in *. simplify_eq.
    done.
Qed.

Lemma run_for_set_parent (node : obj) cs r :
  run (for_ cs (fun child => set_parent child node)) r =
  (Returns tt, with_parent_attr
     (set_parents (parent_attr r) ((fun c => (fst c, node)) <$> cs)) r).
Proof.
  revert r. induction cs as [|c cs IH]; intros r.
  - by destruct r.
  - unfold run in *. simpl. unfold mbind, M_bind. simpl. rewrite IH. by destruct r.
Qed.

Lemma set_parents_app s l1 l2 :
  set_parents s (l1 ++ l2) = set_parents (set_parents s l1) l2.
Proof. unfold set_parents. apply foldl_app. Qed.

Lemma run_check_line_numbers r t :
  tree r = Some t ->
  run check_line_numbers r =
  (Returns tt,
   with_parent_attr (set_parents (parent_attr r) (links (walk (root t)))) r).
Proof.
  intros Ht. unfold run, check_line_numbers, mbind, M_bind, self_tree. rewrite Ht.
  generalize (walk (root t)). intros nodes. revert r Ht.
  induction nodes as [|o nodes IH]; intros r Ht.
  - by destruct r.
  - simpl. unfold mbind, M_bind.
    pose proof (run_for_set_parent o (iter_child_nodes o) r) as Hrun.
    unfold run in Hrun. rewrite Hrun. rewrite IH by done. simpl.
    change (links (o :: nodes))
      with (((fun c => (fst c, o)) <$> iter_child_nodes o) ++ links nodes).
    by rewrite set_parents_app.
Qed.

Lemma below_root_length p q : q ∈ below_root p -> length q <= length p.
Proof.
  induction p as [|i p IH]; simpl; [by intros ?%elem_of_nil|].
  intros [->|Hin%IH]%elem_of_cons; simpl; lia.
Qed.

Lemma below_root_NoDup p : NoDup (below_root p).
Proof.
  induction p as [|i p IH]; simpl; constructor; [|done].
  intros Hin%below_root_length. simpl in Hin. lia.
Qed.

Lemma below_root_linked t s p n :
  node_at t p = Some n ->
  forall q, q ∈ below_root p -> is_Some (set_parents s (links (walk (root t))) !! q).
Proof.
  revert n. induction p as [|i p IH]; intros n Hn q Hq; simpl in Hq.
  { by apply elem_of_nil in Hq. }
  apply elem_of_cons in Hq as [->|Hq].
  - destruct (linked_child t s i p n Hn) as (m & _ & ->). eauto.
  - simpl in Hn. destruct (node_at t p) as [m|] eqn:Hm; [|done]. eauto.
Qed.

(** A linked tree has at least as many [parent] attributes as a node has
    ancestors. *)
Lemma depth_le_parent_attrs t s p n :
  node_at t p = Some n ->
  length p <= size (set_parents s (links (walk (root t)))).
Proof.
  intros Hn. set (S := set_parents s _).
  assert (length (below_root p) = length p) as <-.
  { clear. induction p; simpl; congruence. }
  rewrite <- (size_list_to_set (C := gset path)) by apply below_root_NoDup.
  rewrite <- size_dom. apply subseteq_size. intros q Hq.
  apply elem_of_list_to_set in Hq. apply elem_of_dom.
  by eapply below_root_linked.
Qed.

Lemma run_parents_loop t r :
  parent_attr r = set_parents ∅ (links (walk (root t))) ->
  forall p n fuel,
    node_at t p = Some n -> length p < fuel ->
    run (parents_loop fuel (p, n)) r = (Returns ((p, n) :: ancestors t p), r).
Proof.
  intros Hr. induction p as [|i p IH]; intros n [|fuel] Hn Hlt; try (simpl in Hlt; lia).
  - cbn [parents_loop].
    rewrite (run_bind_returns _ _ r (parent_attr r !! []) r) by done.
    by rewrite Hr, linked_root.
  - cbn [parents_loop].
    rewrite (run_bind_returns _ _ r (parent_attr r !! (i :: p)) r) by done.
    destruct (linked_child t ∅ i p n Hn) as (m & Hm & Hlook).
    rewrite Hr, Hlook. cbn [ancestors]. rewrite Hm.
    simpl in Hlt. by rewrite (run_bind_returns _ _ r _ r (IH m fuel Hm ltac:(lia))).
Qed.

Lemma run_parents_of t r p n :
  parent_attr r = set_parents ∅ (links (walk (root t))) ->
  node_at t p = Some n ->
  run (parents_of (p, n)) r = (Returns ((p, n) :: ancestors t p), r).
Proof.
  intros Hr Hn. unfold parents_of.
  rewrite (run_bind_returns _ _ r (size (parent_attr r)) r) by done.
  apply (run_parents_loop t r Hr); [done|].
  rewrite Hr. pose proof (depth_le_parent_attrs t ∅ p n Hn). lia.
Qed.

Lemma run_for_appends {A} (Q : CodeReviewer -> Prop) (l : list A) body g :
  (forall r l', Q r -> Q (add_issues l' r)) ->
  (forall x r, x ∈ l -> Q r -> run (body x) r = (Returns tt, add_issues (g x) r)) ->
  forall r, Q r -> run (for_ l body) r = (Returns tt, add_issues (l ≫= g) r).
Proof.
  intros HQ. induction l as [|x l IH]; intros Hbody r Hr.
  - by rewrite add_issues_nil.
  - rewrite run_for_cons.
    rewrite (run_bind_returns _ _ r tt (add_issues (g x) r))
      by (apply Hbody; [left|done]).
    rewrite IH; [|intros; apply Hbody; [by right|done]|by apply HQ].
    by rewrite add_issues_app.
Qed.

Lemma run_self_tree r t : tree r = Some t -> run self_tree r = (Returns (root t), r).
Proof. intros H. unfold run, self_tree. by rewrite H. Qed.

Lemma run_append msg r : run (append msg) r = (Returns tt, add_issues [msg] r).
Proof. reflexivity. Qed.

Lemma run_check_break_outside_loop t r :
  tree r = Some t -> parent_attr r = linked t ->
  run check_break_outside_loop r = (Returns tt, add_issues (breaks_outside_loop t) r).
Proof.
  intros Ht Hp. unfold check_break_outside_loop.
  rewrite (run_bind_returns _ _ r (root t) r) by by apply run_self_tree.
  apply (run_for_appends (fun r => parent_attr r = linked t)); [done| |done].
  intros [p n] r' Hin Hr'. apply elem_of_walk in Hin. unfold none_above. simpl.
  destruct (cls n) eqn:Hc; simpl; try by rewrite run_ret, add_issues_nil.
  rewrite (run_bind_returns _ _ r' _ r' (run_parents_of t r' p n Hr' Hin)).
  cbn [existsb snd]. rewrite Hc. simpl.
  destruct (existsb _ (ancestors t p)); simpl.
  - by rewrite run_ret, add_issues_nil.
  - unfold line. simpl. apply run_append.
Qed.

Lemma run_check_continue_outside_loop t r :
  tree r = Some t -> parent_attr r = linked t ->
  run check_continue_outside_loop r =
  (Returns tt, add_issues (continues_outside_loop t) r).
Proof.
  intros Ht Hp. unfold check_continue_outside_loop.
  rewrite (run_bind_returns _ _ r (root t) r) by by apply run_self_tree.
  apply (run_for_appends (fun r => parent_attr r = linked t)); [done| |done].
  intros [p n] r' Hin Hr'. apply elem_of_walk in Hin. unfold none_above. simpl.
  destruct (cls n) eqn:Hc; simpl; try by rewrite run_ret, add_issues_nil.
  rewrite (run_bind_returns _ _ r' _ r' (run_parents_of t r' p n Hr' Hin)).
  cbn [existsb snd]. rewrite Hc. simpl.
  destruct (existsb _ (ancestors t p)); simpl.
  - by rewrite run_ret, add_issues_nil.
  - unfold line. simpl. apply run_append.
Qed.

Lemma subtree_NoDup p n : NoDup (subtree p n).
Proof.
  revert p. induction n as [c l ch IH] using node_induction. intros p.
  rewrite subtree_unfold. constructor.
  - intros ([pk k] & Hk & Hin)%elem_of_subtrees.
    apply iter_child_nodes_lookup in Hk as (i & f & _ & Hp). simpl in *. subst pk.
    apply subtree_path in Hin as (q & Hq & _).
    apply (f_equal length) in Hq. rewrite length_app in Hq. simpl in Hq. lia.
  - unfold subtrees. apply NoDup_bind.
    + intros [p1 k1] [p2 k2] [py y]
        (i & f1 & H1 & Hp1)%iter_child_nodes_lookup
        (j & f2 & H2 & Hp2)%iter_child_nodes_lookup
        (q1 & Hq1 & _)%subtree_path (q2 & Hq2 & _)%subtree_path.
      simpl in *. subst. 
      assert (q1 ++ [i] = q2 ++ [j]) as [_ ->]%app_inj_tail.
      { apply (app_inv_tail p). by rewrite <- !app_assoc. }
      congruence.
    + intros [pk k] (i & f & Hch & Hp)%iter_child_nodes_lookup. simpl in *.
      rewrite Forall_forall in IH. apply (IH (f, k)).
      apply list_elem_of_lookup. eauto.
    + unfold iter_child_nodes, child_objs. simpl.
      apply (NoDup_fmap_1 fst). rewrite <- !list_fmap_compose.
      apply NoDup_alt. intros i j x Hi Hj.
      rewrite list_lookup_fmap, list_lookup_imap in Hi, Hj.
      destruct (ch !! i), (ch !! j); simplify_eq/=. done.
Qed.

Lemma walk_NoDup o : NoDup (walk o).
Proof. rewrite walk_subtree. apply subtree_NoDup. Qed.

Section AppendOnly.
Context (P : string -> Prop).

Lemma prepend_add l0 l r : prepend l0 (add_issues l r) = add_issues l (prepend l0 r).
Proof. unfold prepend, add_issues, with_issues. simpl. by rewrite app_assoc. Qed.

Lemma append_only_reads {A} (f : CodeReviewer -> outcome A) :
  (forall l0 r, f (prepend l0 r) = f r) ->
  append_only P (fun r => (f r, r)).
Proof.
  intros Hf. split.
  - intros r. exists []. simpl. by rewrite app_nil_r.
  - intros l0 r. unfold run. simpl. by rewrite Hf.
Qed.

Lemma append_only_ret {A} (a : A) : append_only P (mret a).
Proof. by apply (append_only_reads (fun _ => Returns a)). Qed.

Lemma append_only_raise {A} e : append_only P (raise (A := A) e).
Proof. by apply (append_only_reads (fun _ => Raises e)). Qed.

Lemma append_only_diverge {A} : append_only P (diverge (A := A)).
Proof. by apply (append_only_reads (fun _ => Diverges)). Qed.

Lemma append_only_self_tree : append_only P self_tree.
Proof.
  split.
  - intros r. exists []. unfold run, self_tree.
    destruct (tree r); simpl; by rewrite app_nil_r.
  - intros l0 r. unfold run, self_tree. simpl. by destruct (tree r).
Qed.

Lemma append_only_self_tree_or_none : append_only P self_tree_or_none.
Proof. by apply (append_only_reads (fun r => Returns (tree r))). Qed.

Lemma append_only_self_lines : append_only P self_lines.
Proof. by apply (append_only_reads (fun r => Returns (lines r))). Qed.

Lemma append_only_count_parent_attrs : append_only P count_parent_attrs.
Proof. by apply (append_only_reads (fun r => Returns (size (parent_attr r)))). Qed.

Lemma append_only_getattr_parent o : append_only P (getattr_parent o).
Proof. by apply (append_only_reads (fun r => Returns (parent_attr r !! fst o))). Qed.

Lemma append_only_set_parent c o : append_only P (set_parent c o).
Proof.
  split.
  - intros r. exists []. simpl. by rewrite app_nil_r.
  - done.
Qed.

Lemma append_only_load_code code : append_only P (load_code code).
Proof.
  split.
  - intros r. exists []. simpl. by rewrite app_nil_r.
  - done.
Qed.

Lemma append_only_append msg : P msg -> append_only P (append msg).
Proof.
  intros HP. split.
  - intros r. exists [msg]. split; [done|]. by constructor.
  - intros l0 r. unfold run, append, prepend, with_issues. simpl.
    by rewrite app_assoc.
Qed.

Lemma append_only_bind {A B} (m : M A) (f : A -> M B) :
  append_only P m -> (forall a, append_only P (f a)) -> append_only P (m ≫= f).
Proof.
  intros [Hm1 Hm2] Hf. split.
  - intros r. rewrite run_bind. destruct (Hm1 r) as (l1 & Hl1 & HP1).
    destruct (run m r) as [[a| |] r'] eqn:Hrun; simpl in *; eauto.
    destruct (Hf a) as [Hf1 _]. destruct (Hf1 r') as (l2 & Hl2 & HP2).
    exists (l1 ++ l2). rewrite Hl2, Hl1, app_assoc. split; [done|].
    by apply Forall_app.
  - intros l0 r. rewrite !run_bind, Hm2.
    destruct (run m r) as [[a| |] r'] eqn:Hrun; simpl; try done.
    destruct (Hf a) as [_ Hf2]. apply Hf2.
Qed.

Lemma append_only_when b m : append_only P m -> append_only P (when b m).
Proof. destruct b; [done|]. intros _. apply append_only_ret. Qed.

Lemma append_only_for {A} (l : list A) body :
  (forall x, append_only P (body x)) -> append_only P (for_ l body).
Proof.
  intros Hbody. induction l as [|x l IH]; simpl.
  - apply append_only_ret.
  - apply append_only_bind; [apply Hbody|]. by intros _.
Qed.

Lemma append_only_for_carrying {A S} (l : list A) (s : S) body :
  (forall s x, append_only P (body s x)) -> append_only P (for_carrying l s body).
Proof.
  intros Hbody. revert s. induction l as [|x l IH]; intros s; simpl.
  - apply append_only_ret.
  - apply append_only_bind; [apply Hbody|]. intros s'. apply IH.
Qed.

Lemma append_only_parents_loop fuel o : append_only P (parents_loop fuel o).
Proof.
  revert o. induction fuel as [|fuel IH]; intros o; simpl.
  - apply append_only_diverge.
  - apply append_only_bind; [apply append_only_getattr_parent|].
    intros [o'|]; [|apply append_only_ret].
    apply append_only_bind; [apply IH|]. intros ?. apply append_only_ret.
Qed.

Lemma append_only_parents_of o : append_only P (parents_of o).
Proof.
  apply append_only_bind; [apply append_only_count_parent_attrs|].
  intros n. apply append_only_parents_loop.
Qed.

End AppendOnly.

Lemma append_only_weaken {A} (P Q : string -> Prop) (m : M A) :
  (forall msg, P msg -> Q msg) -> append_only P m -> append_only Q m.
Proof.
  intros HPQ [H1 H2]. split; [|done].
  intros r. destruct (H1 r) as (l & Hl & HP). exists l. split; [done|].
  eapply Forall_impl; eauto.
Qed.

(** ** Every rule only appends *)

Ltac append_only_step :=
  lazymatch goal with
  | |- append_only _ (_ ≫= _) => apply append_only_bind; [|intros ?]
  | |- append_only _ (for_ _ _) => apply append_only_for; intros ?
  | |- append_only _ (for_carrying _ _ _) =>
      apply append_only_for_carrying; intros ? ?
  | |- append_only _ (when _ _) => apply append_only_when
  | |- append_only _ (mret _) => apply append_only_ret
  | |- append_only _ (raise _) => apply append_only_raise
  | |- append_only _ diverge => apply append_only_diverge
  | |- append_only _ self_tree => apply append_only_self_tree
  | |- append_only _ self_lines => apply append_only_self_lines
  | |- append_only _ count_parent_attrs => apply append_only_count_parent_attrs
  | |- append_only _ (getattr_parent _) => apply append_only_getattr_parent
  | |- append_only _ (set_parent _ _) => apply append_only_set_parent
  | |- append_only _ (parents_of _) => apply append_only_parents_of
  | |- append_only _ (append _) =>
      apply append_only_append; vm_compute; reflexivity
  | |- append_only _ (match ?x with _ => _ end) => destruct x
  end.

Ltac append_only_auto := repeat append_only_step.

Lemma unreachable_loop_append_only fuel node parent :
  append_only catalogued (unreachable_loop fuel node parent).
Proof.
  revert parent. induction fuel as [|fuel IH]; intros parent; simpl.
  - apply append_only_diverge.
  - destruct (body_attr _); append_only_auto. apply IH.
Qed.

Lemma check_style_append_only E code :
  append_only catalogued (check_style E code).
Proof. unfold check_style. append_only_auto. Qed.

Lemma check_missing_docstrings_append_only E :
  append_only catalogued (check_missing_docstrings E).
Proof. unfold check_missing_docstrings. append_only_auto. Qed.

Lemma check_class_names_append_only :
  append_only catalogued (check_class_names).
Proof. unfold check_class_names. append_only_auto. Qed.

Lemma check_function_names_append_only :
  append_only catalogued (check_function_names).
Proof. unfold check_function_names. append_only_auto. Qed.

Lemma check_variable_names_append_only :
  append_only catalogued (check_variable_names).
Proof. unfold check_variable_names. append_only_auto. Qed.

Lemma check_constant_names_append_only :
  append_only catalogued (check_constant_names).
Proof. unfold check_constant_names. append_only_auto. Qed.

Lemma check_unused_imports_append_only :
  append_only catalogued (check_unused_imports).
Proof. unfold check_unused_imports. append_only_auto. Qed.

Lemma check_redefined_builtins_append_only :
  append_only catalogued (check_redefined_builtins).
Proof. unfold check_redefined_builtins. append_only_auto. Qed.

Lemma check_magic_methods_append_only :
  append_only catalogued (check_magic_methods).
Proof. unfold check_magic_methods. append_only_auto. Qed.

Lemma check_unreachable_code_append_only :
  append_only catalogued (check_unreachable_code).
Proof. unfold check_unreachable_code. append_only_auto. apply unreachable_loop_append_only. Qed.

Lemma check_too_many_branches_append_only :
  append_only catalogued (check_too_many_branches).
Proof. unfold check_too_many_branches. append_only_auto. Qed.

Lemma check_too_many_arguments_append_only :
  append_only catalogued (check_too_many_arguments).
Proof. unfold check_too_many_arguments. append_only_auto. Qed.

Lemma check_nested_functions_append_only :
  append_only catalogued (check_nested_functions).
Proof. unfold check_nested_functions. append_only_auto. Qed.

Lemma check_empty_blocks_append_only :
  append_only catalogued (check_empty_blocks).
Proof. unfold check_empty_blocks. append_only_auto. Qed.

Lemma check_break_outside_loop_append_only :
  append_only catalogued (check_break_outside_loop).
Proof. unfold check_break_outside_loop. append_only_auto. Qed.

Lemma check_continue_outside_loop_append_only :
  append_only catalogued (check_continue_outside_loop).
Proof. unfold check_continue_outside_loop. append_only_auto. Qed.

Lemma check_raise_without_exception_append_only :
  append_only catalogued (check_raise_without_exception).
Proof. unfold check_raise_without_exception. append_only_auto. Qed.

Lemma check_return_outside_function_append_only :
  append_only catalogued (check_return_outside_function).
Proof. unfold check_return_outside_function. append_only_auto. Qed.

Lemma check_global_usage_append_only :
  append_only catalogued (check_global_usage).
Proof. unfold check_global_usage. append_only_auto. Qed.

Lemma check_nonlocal_usage_append_only :
  append_only catalogued (check_nonlocal_usage).
Proof. unfold check_nonlocal_usage. append_only_auto. Qed.

Lemma check_mutable_defaults_append_only :
  append_only catalogued (check_mutable_defaults).
Proof. unfold check_mutable_defaults. append_only_auto. Qed.

Lemma check_print_statements_append_only :
  append_only catalogued (check_print_statements).
Proof. unfold check_print_statements. append_only_auto. Qed.

Lemma check_exec_usage_append_only :
  append_only catalogued (check_exec_usage).
Proof. unfold check_exec_usage. append_only_auto. Qed.

Lemma check_eval_usage_append_only :
  append_only catalogued (check_eval_usage).
Proof. unfold check_eval_usage. append_only_auto. Qed.

Lemma check_pass_statements_append_only :
  append_only catalogued (check_pass_statements).
Proof. unfold check_pass_statements. append_only_auto. Qed.

Lemma check_comment_format_append_only :
  append_only catalogued (check_comment_format).
Proof. unfold check_comment_format. append_only_auto. Qed.

Lemma check_magic_number_append_only E :
  append_only catalogued (check_magic_number E).
Proof. unfold check_magic_number. append_only_auto. Qed.

Lemma check_boolean_traps_append_only :
  append_only catalogued (check_boolean_traps).
Proof. unfold check_boolean_traps. append_only_auto. Qed.

Lemma check_todo_comments_append_only :
  append_only catalogued (check_todo_comments).
Proof. unfold check_todo_comments. append_only_auto. Qed.

Lemma check_long_lines_append_only :
  append_only catalogued (check_long_lines).
Proof. unfold check_long_lines. append_only_auto. Qed.

Lemma check_multiple_imports_on_one_line_append_only :
  append_only catalogued (check_multiple_imports_on_one_line).
Proof. unfold check_multiple_imports_on_one_line. append_only_auto. Qed.

Lemma check_bad_indentation_append_only :
  append_only catalogued (check_bad_indentation).
Proof. unfold check_bad_indentation. append_only_auto. Qed.

Lemma check_semicolons_append_only :
  append_only catalogued (check_semicolons).
Proof. unfold check_semicolons. append_only_auto. Qed.

Lemma check_tabs_append_only :
  append_only catalogued (check_tabs).
Proof. unfold check_tabs. append_only_auto. Qed.

Lemma check_trailing_whitespace_append_only :
  append_only catalogued (check_trailing_whitespace).
Proof. unfold check_trailing_whitespace. append_only_auto. Qed.

Lemma check_multiple_statements_append_only :
  append_only catalogued (check_multiple_statements).
Proof. unfold check_multiple_statements. append_only_auto. Qed.

Lemma check_exception_handling_append_only :
  append_only catalogued (check_exception_handling).
Proof. unfold check_exception_handling. append_only_auto. Qed.

Lemma check_empty_exceptions_append_only :
  append_only catalogued (check_empty_exceptions).
Proof. unfold check_empty_exceptions. append_only_auto. Qed.

Lemma check_useless_else_on_loop_append_only :
  append_only catalogued (check_useless_else_on_loop).
Proof. unfold check_useless_else_on_loop. append_only_auto. Qed.

Lemma check_direct_exit_calls_append_only :
  append_only catalogued (check_direct_exit_calls).
Proof. unfold check_direct_exit_calls. append_only_auto. Qed.

Lemma check_recursion_limit_append_only :
  append_only catalogued (check_recursion_limit).
Proof. unfold check_recursion_limit. append_only_auto. Qed.

Lemma check_lambda_usage_append_only :
  append_only catalogued (check_lambda_usage).
Proof. unfold check_lambda_usage. append_only_auto. Qed.

Lemma check_format_vs_fstring_append_only :
  append_only catalogued (check_format_vs_fstring).
Proof. unfold check_format_vs_fstring. append_only_auto. Qed.

Lemma check_mutable_class_vars_append_only :
  append_only catalogued (check_mutable_class_vars).
Proof. unfold check_mutable_class_vars. append_only_auto. Qed.

Lemma check_inconsistent_return_append_only :
  append_only catalogued (check_inconsistent_return).
Proof. unfold check_inconsistent_return. append_only_auto. Qed.

Lemma check_wildcard_imports_append_only :
  append_only catalogued (check_wildcard_imports).
Proof. unfold check_wildcard_imports. append_only_auto. Qed.

Lemma check_multiple_consecutive_blank_lines_append_only :
  append_only catalogued (check_multiple_consecutive_blank_lines).
Proof. unfold check_multiple_consecutive_blank_lines. append_only_auto. Qed.

Lemma check_very_large_functions_append_only :
  append_only catalogued (check_very_large_functions).
Proof. unfold check_very_large_functions. append_only_auto. Qed.

Lemma check_line_numbers_append_only :
  append_only catalogued (check_line_numbers).
Proof. unfold check_line_numbers. append_only_auto. Qed.

Lemma rule_catalog_append_only E code :
  Forall (append_only catalogued) (rule_catalog E code).
Proof.
  unfold rule_catalog.
  constructor; [exact check_line_numbers_append_only|].
  constructor; [exact (check_style_append_only E code)|].
  constructor; [exact (check_missing_docstrings_append_only E)|].
  constructor; [exact check_class_names_append_only|].
  constructor; [exact check_function_names_append_only|].
  constructor; [exact check_variable_names_append_only|].
  constructor; [exact check_constant_names_append_only|].
  constructor; [exact check_unused_imports_append_only|].
  constructor; [exact check_redefined_builtins_append_only|].
  constructor; [exact check_magic_methods_append_only|].
  constructor; [exact check_unreachable_code_append_only|].
  constructor; [exact check_too_many_branches_append_only|].
  constructor; [exact check_too_many_arguments_append_only|].
  constructor; [exact check_nested_functions_append_only|].
  constructor; [exact check_empty_blocks_append_only|].
  constructor; [exact check_break_outside_loop_append_only|].
  constructor; [exact check_continue_outside_loop_append_only|].
  constructor; [exact check_raise_without_exception_append_only|].
  constructor; [exact check_return_outside_function_append_only|].
  constructor; [exact check_global_usage_append_only|].
  constructor; [exact check_nonlocal_usage_append_only|].
  constructor; [exact check_mutable_defaults_append_only|].
  constructor; [exact check_print_statements_append_only|].
  constructor; [exact check_exec_usage_append_only|].
  constructor; [exact check_eval_usage_append_only|].
  constructor; [exact check_pass_statements_append_only|].
  constructor; [exact check_comment_format_append_only|].
  constructor; [exact (check_magic_number_append_only E)|].
  constructor; [exact check_boolean_traps_append_only|].
  constructor; [exact check_todo_comments_append_only|].
  constructor; [exact check_long_lines_append_only|].
  constructor; [exact check_multiple_imports_on_one_line_append_only|].
  constructor; [exact check_bad_indentation_append_only|].
  constructor; [exact check_semicolons_append_only|].
  constructor; [exact check_tabs_append_only|].
  constructor; [exact check_trailing_whitespace_append_only|].
  constructor; [exact check_multiple_statements_append_only|].
  constructor; [exact check_exception_handling_append_only|].
  constructor; [exact check_empty_exceptions_append_only|].
  constructor; [exact check_useless_else_on_loop_append_only|].
  constructor; [exact check_direct_exit_calls_append_only|].
  constructor; [exact check_recursion_limit_append_only|].
  constructor; [exact check_lambda_usage_append_only|].
  constructor; [exact check_format_vs_fstring_append_only|].
  constructor; [exact check_mutable_class_vars_append_only|].
  constructor; [exact check_inconsistent_return_append_only|].
  constructor; [exact check_wildcard_imports_append_only|].
  constructor; [exact check_multiple_consecutive_blank_lines_append_only|].
  constructor; [exact check_very_large_functions_append_only|].
  constructor.
Qed.

Lemma run_all_append_only P rules :
  Forall (append_only P) rules -> append_only P (run_all rules).
Proof.
  induction 1 as [|rule rules Hrule _ IH]; simpl.
  - apply append_only_ret.
  - apply append_only_bind; [done|]. by intros _.
Qed.

(** ** [analyze] as the sequence of its rules *)

Lemma run_bind_cong {A B} (m1 m2 : M A) (f1 f2 : A -> M B) :
  (forall r, run m1 r = run m2 r) ->
  (forall a r, run (f1 a) r = run (f2 a) r) ->
  forall r, run (m1 ≫= f1) r = run (m2 ≫= f2) r.
Proof.
  intros Hm Hf r. rewrite !run_bind, Hm.
  destruct (run m2 r) as [[a| |] r']; [apply Hf|done..].
Qed.

Lemma run_then_ret (m : M unit) r : run (m ;; mret tt) r = run m r.
Proof.
  rewrite run_bind. destruct (run m r) as [[[]| |] r']; done.
Qed.


Lemma run_analyze E code r :
  run (analyze E code) r =
  run (load_code code;; parse_code E code;; analyze_rules E code) r.
Proof.
  unfold analyze, analyze_rules.
  apply run_bind_cong; [done|]. intros _.
  apply run_bind_cong; [done|]. intros _.
  apply run_bind_cong; [done|]. intros [t|]; [|done].
  unfold rule_catalog, run_all. cbn [foldr].
  repeat (apply run_bind_cong; [done|intros _]).
  intros r'. symmetry. apply run_then_ret.
Qed.

Lemma run_analyze_parsed E code t r :
  ast_parse E code = Parsed t ->
  run (analyze E code) r = run (run_all (rule_catalog E code)) (loaded code t r).
Proof.
  intros Ht. rewrite run_analyze. unfold parse_code. rewrite Ht. done.
Qed.

Lemma run_analyze_malformed E code e r :
  ast_parse E code = SyntaxError e ->
  run (analyze E code) r =
  run (analyze_rules E code)
      (add_issues ["SyntaxError: " +:+ e]
         (mkCodeReviewer (issues r) (PyStr.split "010" code) (tree r) (parent_attr r))).
Proof.
  intros He. rewrite run_analyze. unfold parse_code. rewrite He. done.
Qed.

Lemma parse_code_append_only E code :
  append_only (fun _ => True) (parse_code E code).
Proof.
  unfold parse_code. destruct (ast_parse E code).
  - split; [|done]. intros r. exists []. simpl. by rewrite app_nil_r.
  - by apply append_only_append.
Qed.

Lemma analyze_rules_append_only E code :
  append_only catalogued (analyze_rules E code).
Proof.
  apply append_only_bind; [apply append_only_self_tree_or_none|].
  intros [t|]; [|apply append_only_ret].
  apply run_all_append_only, rule_catalog_append_only.
Qed.

Lemma append_only_ext {A} P (m1 m2 : M A) :
  (forall r, run m1 r = run m2 r) -> append_only P m2 -> append_only P m1.
Proof.
  intros Heq [H1 H2]. split.
  - intros r. rewrite Heq. apply H1.
  - intros l0 r. rewrite !Heq. apply H2.
Qed.

Lemma analyze_append_only E code :
  append_only (fun _ => True) (analyze E code).
Proof.
  apply (append_only_ext _ _ _ (run_analyze E code)).
  apply append_only_bind; [apply append_only_load_code|]. intros _.
  apply append_only_bind; [apply parse_code_append_only|]. intros _.
  eapply append_only_weaken; [|apply analyze_rules_append_only]. done.
Qed.

Lemma steps_append_only E code :
  Forall (append_only (fun _ => True)) (steps E code).
Proof.
  unfold steps. constructor; [apply append_only_load_code|].
  constructor; [apply parse_code_append_only|].
  eapply Forall_impl; [apply rule_catalog_append_only|].
  intros m Hm. eapply append_only_weaken; [|exact Hm]. done.
Qed.

Lemma run_all_app rules1 rules2 r :
  run (run_all (rules1 ++ rules2)) r = run (run_all rules1;; run_all rules2) r.
Proof.
  revert r. induction rules1 as [|rule rules1 IH]; intros r; [done|].
  simpl. rewrite !run_bind. destruct (run rule r) as [[[]| |] r']; [|done..].
  rewrite IH. by rewrite run_bind.
Qed.

Lemma append_only_prefix {A} P (m : M A) r :
  append_only P m -> issues r `prefix_of` issues (snd (run m r)).
Proof. intros [H _]. destruct (H r) as (l & -> & _). by exists l. Qed.

(** C9.  During a pass the list of diagnostics only grows at its end: each
    method that [analyze] calls leaves the diagnostics it found as a prefix
    of those it hands on, whether it returns or raises; [analyze] is the run
    of these methods in the order of the catalog; the diagnostics of a first
    part of the catalog stay in front of those of the rest; and so does the
    list that [analyze] found in front of the one it leaves. *)
Theorem diagnostics_append_only E code :
  (forall step, step ∈ steps E code ->
     forall r, issues r `prefix_of` issues (snd (run step r))) /\
  (forall r, run (analyze E code) r =
             run (load_code code;; parse_code E code;; analyze_rules E code) r) /\
  (forall rules1 rules2 r, rule_catalog E code = rules1 ++ rules2 ->
     issues (snd (run (run_all rules1) r))
       `prefix_of` issues (snd (run (run_all (rule_catalog E code)) r))) /\
  (forall r, issues r `prefix_of` issues (snd (run (analyze E code) r))).
Proof.
  split_and!.
  - intros step Hstep r. eapply append_only_prefix.
    pose proof (steps_append_only E code) as H. rewrite Forall_forall in H.
    by apply H.
  - apply run_analyze.
  - intros rules1 rules2 r Hcat. rewrite Hcat, run_all_app, run_bind.
    destruct (run (run_all rules1) r) as [[[]| |] r'] eqn:Hrun; simpl; try done.
    eapply append_only_prefix, run_all_append_only.
    pose proof (rule_catalog_append_only E code) as H. rewrite Hcat in H.
    apply Forall_app in H as [_ H]. exact H.
  - intros r. eapply append_only_prefix, analyze_append_only.
Qed.

(** ** The boundaries of the catalog and of the list of diagnostics *)

Import Samples.




(** C5, as stated, fails: a reviewer that has already analysed [print(0)]
    and a new one, given the same text, end with different diagnostics. *)
Lemma earlier_diagnostics_remain :
  get_issues (snd (run (analyze sample src_print)
                     (snd (run (analyze sample src_print) new_reviewer))))
    <> get_issues (snd (run (analyze sample src_print) new_reviewer)).
Proof. by vm_compute. Qed.

(** C5, amended.  The list of diagnostics is created empty with the
    reviewer, and [analyze] never empties it: after a call on a text that
    parses, the diagnostics are those the reviewer had before, followed by
    those a new reviewer gets for the same text. *)
Theorem diagnostics_accumulate E code t r :
  ast_parse E code = Parsed t ->
  get_issues new_reviewer = [] /\
  get_issues (snd (run (analyze E code) r))
    = get_issues r ++ get_issues (snd (run (analyze E code) new_reviewer)).
Proof.
  intros Ht. split; [done|].
  rewrite !(run_analyze_parsed E code t _ Ht).
  destruct (run_all_append_only catalogued _ (rule_catalog_append_only E code))
    as [_ H].
  replace (loaded code t r)
    with (prepend (issues r) (loaded code t new_reviewer)).
  - rewrite H. done.
  - unfold prepend, loaded, with_issues. simpl. by rewrite app_nil_r.
Qed.

Lemma diagnostics_accumulate_witness :
  ast_parse sample src_print = Parsed tree_print /\
  get_issues new_reviewer = [] /\
  get_issues (snd (run (analyze sample src_print)
                     (snd (run (analyze sample src_print) new_reviewer))))
    = get_issues (snd (run (analyze sample src_print) new_reviewer))
      ++ get_issues (snd (run (analyze sample src_print) new_reviewer)).
Proof.
  split; [reflexivity|].
  apply (diagnostics_accumulate sample src_print tree_print). reflexivity.
Defined.

(** C1.  On the function that returns from an [else] branch the parser
    succeeds and [analyze] ends with [ValueError]: [check_unreachable_code]
    looks for the [Return] in the [body] of the [If], where it is not. *)
Theorem return_in_else_raises E :
  ast_parse E src_else_return = Parsed tree_else_return ->
  fst (run (analyze E src_else_return) new_reviewer) = Raises ValueError.
Proof.
  intros Ht. rewrite (run_analyze_parsed E _ _ _ Ht).
  unfold run, rule_catalog, run_all, check_style. cbn [foldr].
  destruct (0 <? total_errors E src_else_return); by vm_compute.
Qed.

Lemma return_in_else_raises_witness :
  ast_parse sample src_else_return = Parsed tree_else_return /\
  fst (run (analyze sample src_else_return) new_reviewer) = Raises ValueError.
Proof.
  split; [reflexivity|]. apply (return_in_else_raises sample). reflexivity.
Defined.

(** C2.  A reviewer that has analysed [print(0)] and is then given a text
    the parser rejects appends the parse failure and goes on to run the rules
    on the tree of the first text: the print call is reported again. *)
Theorem malformed_text_after_success_runs_rules E e :
  ast_parse E src_print = Parsed tree_print ->
  ast_parse E src_malformed = SyntaxError e ->
  exists l,
    get_issues (snd (run (analyze E src_malformed)
                       (snd (run (analyze E src_print) new_reviewer))))
    = get_issues (snd (run (analyze E src_print) new_reviewer))
      ++ ("SyntaxError: " +:+ e) :: l /\
    "Print statement at line 1." ∈ l.
Proof.
  intros Ht He. rewrite (run_analyze_malformed E _ _ _ He).
  rewrite (run_analyze_parsed E _ _ _ Ht).
  unfold run, analyze_rules, rule_catalog, run_all, check_style. cbn [foldr].
  destruct (0 <? total_errors E src_print);
    destruct (0 <? total_errors E src_malformed); vm_compute;
    eexists; (split; [reflexivity|]); set_solver.
Qed.

Lemma malformed_text_after_success_runs_rules_witness :
  ast_parse sample src_print = Parsed tree_print /\
  ast_parse sample src_malformed = SyntaxError msg_malformed /\
  exists l,
    get_issues (snd (run (analyze sample src_malformed)
                       (snd (run (analyze sample src_print) new_reviewer))))
    = get_issues (snd (run (analyze sample src_print) new_reviewer))
      ++ ("SyntaxError: " +:+ msg_malformed) :: l /\
    "Print statement at line 1." ∈ l.
Proof.
  split; [reflexivity|]. split; [reflexivity|].
  apply (malformed_text_after_success_runs_rules sample msg_malformed); reflexivity.
Defined.

(** On a new reviewer a text that the parser rejects gives the one
    diagnostic of the parse failure, and no rule runs. *)
Lemma malformed_text_on_new_reviewer E code e :
  ast_parse E code = SyntaxError e ->
  run (analyze E code) new_reviewer =
  (Returns tt,
   mkCodeReviewer ["SyntaxError: " +:+ e] (PyStr.split "010" code) None ∅).
Proof. intros He. by rewrite (run_analyze_malformed E _ _ _ He). Qed.

(** C6.  [ast.walk] visits every node of the tree once.  On a newly parsed
    tree, once [check_line_numbers] has run, [check_break_outside_loop]
    returns and appends one diagnostic for each [Break] above which there is
    no [For] or [While], and nothing for any other node;
    [check_continue_outside_loop] does the same for [Continue].  A [Break] in
    an [If] in a [For] is not reported; a [Break] at top level gives one
    diagnostic. *)
Theorem break_flagged_iff_no_loop_above t r :
  NoDup (walk (root t)) /\
  (forall p n, (p, n) ∈ walk (root t) <-> node_at t p = Some n) /\
  run (check_line_numbers;; check_break_outside_loop) (parsed t r)
    = (Returns tt,
       add_issues (breaks_outside_loop t)
         (with_parent_attr (linked t) (parsed t r))) /\
  run (check_line_numbers;; check_continue_outside_loop) (parsed t r)
    = (Returns tt,
       add_issues (continues_outside_loop t)
         (with_parent_attr (linked t) (parsed t r))) /\
  breaks_outside_loop tree_break_in_if_in_for = [] /\
  breaks_outside_loop tree_break_top = ["Break outside loop at line 1."] /\
  continues_outside_loop tree_continue_top = ["Continue outside loop at line 1."] /\
  get_issues (snd (run (analyze sample src_break_in_if_in_for) new_reviewer)) = [] /\
  get_issues (snd (run (analyze sample src_break_top) new_reviewer))
    = ["Break outside loop at line 1."].
Proof.
  split_and!; try by vm_compute.
  - apply walk_NoDup.
  - apply elem_of_walk.
  - rewrite (run_bind_returns _ _ _ _ _ (run_check_line_numbers (parsed t r) t eq_refl)).
    by apply run_check_break_outside_loop.
  - rewrite (run_bind_returns _ _ _ _ _ (run_check_line_numbers (parsed t r) t eq_refl)).
    by apply run_check_continue_outside_loop.
Qed.

(** C7.  The text [def f(): return; x()] on three lines gets one diagnostic
    of the unreachable-code rule, and it names line 3, the line of [x()];
    the text without that line gets none. *)
Theorem unreachable_code_boundary E :
  ast_parse E src_return_then_call = Parsed tree_return_then_call ->
  ast_parse E src_return_only = Parsed tree_return_only ->
  unreachable_findings
    (get_issues (snd (run (analyze E src_return_then_call) new_reviewer)))
    = ["Unreachable code after return in line 3."] /\
  PyStr.split "010" src_return_then_call !! 2 = Some "  x()" /\
  unreachable_findings
    (get_issues (snd (run (analyze E src_return_only) new_reviewer)))
    = [].
Proof.
  intros Ht1 Ht2. rewrite (run_analyze_parsed E _ _ _ Ht1).
  rewrite (run_analyze_parsed E _ _ _ Ht2).
  unfold run, rule_catalog, run_all, check_style. cbn [foldr].
  destruct (0 <? total_errors E src_return_then_call);
    destruct (0 <? total_errors E src_return_only); by vm_compute.
Qed.

Lemma unreachable_code_boundary_witness :
  ast_parse sample src_return_then_call = Parsed tree_return_then_call /\
  ast_parse sample src_return_only = Parsed tree_return_only /\
  unreachable_findings
    (get_issues (snd (run (analyze sample src_return_then_call) new_reviewer)))
    = ["Unreachable code after return in line 3."] /\
  PyStr.split "010" src_return_then_call !! 2 = Some "  x()" /\
  unreachable_findings
    (get_issues (snd (run (analyze sample src_return_only) new_reviewer)))
    = [].
Proof.
  split; [reflexivity|]. split; [reflexivity|].
  apply (unreachable_code_boundary sample); reflexivity.
Defined.

(** ** The patterns of the naming rules *)

Lemma at_end_dollar_tail s : Re.at_end s = true <-> dollar_tail s.
Proof.
  unfold dollar_tail, Samples.nl. destruct s as [|c [|c' s]]; simpl.
  - split; [by left|done].
  - rewrite Ascii.eqb_eq. split; [intros ->; by right|]. by intros [|[= ->]].
  - split; [done|]. by intros [|].
Qed.

Lemma star_spec p k s :
  Re.star p k s = true <->
  exists body tail, s = body +:+ tail /\ PyStr.forallb p body = true /\ k tail = true.
Proof.
  split.
  - induction s as [|c s IH]; simpl; intros H%orb_prop.
    + destruct H as [H|H]; [|done]. by exists "", "".
    + destruct H as [H|[Hc Hs]%andb_prop].
      * by exists "", (String c s).
      * destruct (IH Hs) as (body & tail & -> & Hb & Hk).
        exists (String c body), tail. simpl. by rewrite Hc, Hb.
  - intros (body & tail & -> & Hb & Hk). induction body as [|c body IH]; simpl.
    + destruct tail; simpl in *; by rewrite Hk.
    + simpl in Hb. apply andb_prop in Hb as [Hc Hb].
      rewrite Hc, (IH Hb). apply orb_true_r.
Qed.

Lemma class_name_pattern_spec s :
  Re.re_match Re.class_name_pattern s = true <->
  exists c rest tail,
    s = String c (rest +:+ tail) /\ PyStr.is_upper c = true /\ rest <> "" /\
    PyStr.forallb PyStr.is_alnum rest = true /\ dollar_tail tail.
Proof.
  unfold Re.class_name_pattern. cbn [Re.re_match]. split.
  - destruct s as [|c [|c' s]]; simpl; try done; [by rewrite andb_false_r|].
    intros [Hc [Hc' (body & tail & -> & Hb & Hk)%star_spec]%andb_prop]%andb_prop.
    exists c, (String c' body), tail. simpl. rewrite Hc', Hb.
    by apply at_end_dollar_tail in Hk.
  - intros (c & [|c' rest] & tail & -> & Hc & Hne & Hrest & Htail); [done|].
    simpl in *. apply andb_prop in Hrest as [Hc' Hrest]. rewrite Hc, Hc'. simpl.
    apply star_spec. exists rest, tail. by rewrite at_end_dollar_tail.
Qed.

Lemma snake_name_pattern_spec s :
  Re.re_match Re.snake_name_pattern s = true <->
  exists c rest tail,
    s = String c (rest +:+ tail) /\
    (PyStr.is_lower c || PyStr.is_underscore c) = true /\
    PyStr.forallb (fun c => PyStr.is_lower c || PyStr.is_digit c
                            || PyStr.is_underscore c) rest = true /\
    dollar_tail tail.
Proof.
  unfold Re.snake_name_pattern. cbn [Re.re_match]. split.
  - destruct s as [|c s]; [done|].
    intros [Hc (body & tail & -> & Hb & Hk)%star_spec]%andb_prop.
    exists c, body, tail. by apply at_end_dollar_tail in Hk.
  - intros (c & rest & tail & -> & Hc & Hrest & Htail). rewrite Hc. simpl.
    apply star_spec. exists rest, tail. by rewrite at_end_dollar_tail.
Qed.

Lemma run_check_class_names t r :
  tree r = Some t ->
  run check_class_names r = (Returns tt, add_issues (class_name_findings t) r).
Proof.
  intros Ht. unfold check_class_names.
  rewrite (run_bind_returns _ _ r (root t) r) by by apply run_self_tree.
  apply (run_for_appends (fun _ => True)); [done| |done].
  intros [p n] r' _ _. cbn [snd].
  destruct (cls n); cbv beta iota; try by rewrite run_ret, add_issues_nil.
  destruct (Re.re_match _ _); cbv beta iota; simpl negb; unfold when;
    [by rewrite run_ret, add_issues_nil|].
  apply run_append.
Qed.

Lemma run_check_function_names t r :
  tree r = Some t ->
  run check_function_names r = (Returns tt, add_issues (function_name_findings t) r).
Proof.
  intros Ht. unfold check_function_names.
  rewrite (run_bind_returns _ _ r (root t) r) by by apply run_self_tree.
  apply (run_for_appends (fun _ => True)); [done| |done].
  intros [p n] r' _ _. cbn [snd].
  destruct (cls n); cbv beta iota; try by rewrite run_ret, add_issues_nil.
  destruct (Re.re_match _ _); cbv beta iota; simpl negb; unfold when;
    [by rewrite run_ret, add_issues_nil|].
  apply run_append.
Qed.

(** C8, as stated, fails: the class name [A] is a leading uppercase letter
    followed by letters and digits (none), and the rule reports it. *)
Lemma one_letter_class_name_is_flagged :
  spec_class_name "A" = true /\
  get_issues (snd (run check_class_names (parsed (tree_class "A") new_reviewer)))
    = ["Class 'A' naming style."].
Proof. split; by vm_compute. Qed.

(** C8, amended.  A class definition is reported if and only if its name
    is not an uppercase letter followed by one or more letters and digits, so
    a name of one letter is reported; a function definition is reported if
    and only if its name is not a lowercase letter or underscore followed by
    lowercase letters, digits and underscores.  [Foo1] passes as a class
    name, [foo1], [1Foo] and [A] do not; [_private2] passes as a function
    name, [Bad] does not. *)
Theorem naming_rules t r :
  tree r = Some t ->
  run check_class_names r = (Returns tt, add_issues (class_name_findings t) r) /\
  run check_function_names r
    = (Returns tt, add_issues (function_name_findings t) r) /\
  (forall s, Re.re_match Re.class_name_pattern s = true <->
     exists c rest tail,
       s = String c (rest +:+ tail) /\ PyStr.is_upper c = true /\ rest <> "" /\
       PyStr.forallb PyStr.is_alnum rest = true /\ dollar_tail tail) /\
  (forall s, Re.re_match Re.snake_name_pattern s = true <->
     exists c rest tail,
       s = String c (rest +:+ tail) /\
       (PyStr.is_lower c || PyStr.is_underscore c) = true /\
       PyStr.forallb (fun c => PyStr.is_lower c || PyStr.is_digit c
                               || PyStr.is_underscore c) rest = true /\
       dollar_tail tail) /\
  class_name_findings (tree_class "Foo1") = [] /\
  class_name_findings (tree_class "foo1") = ["Class 'foo1' naming style."] /\
  class_name_findings (tree_class "1Foo") = ["Class '1Foo' naming style."] /\
  class_name_findings (tree_class "A") = ["Class 'A' naming style."] /\
  function_name_findings (tree_def "_private2") = [] /\
  function_name_findings (tree_def "Bad") = ["Function 'Bad' naming style."].
Proof.
  intros Ht. split_and!; try by vm_compute.
  - by apply run_check_class_names.
  - by apply run_check_function_names.
  - apply class_name_pattern_spec.
  - apply snake_name_pattern_spec.
Qed.

Lemma naming_rules_witness :
  tree (parsed (tree_class "Foo1") new_reviewer) = Some (tree_class "Foo1") /\
  run check_class_names (parsed (tree_class "Foo1") new_reviewer)
    = (Returns tt,
       add_issues (class_name_findings (tree_class "Foo1"))
         (parsed (tree_class "Foo1") new_reviewer)).
Proof.
  split; [reflexivity|].
  apply (naming_rules (tree_class "Foo1") (parsed (tree_class "Foo1") new_reviewer)).
  reflexivity.
Defined.

(** ** The unused-import rule *)

Lemma foldl_snoc_each {A B} (h : A -> B) (l : list A) (acc : list B) :
  foldl (fun acc x => acc ++ [h x]) acc l = acc ++ (h <$> l).
Proof.
  revert acc. induction l as [|x l IH]; intros acc; simpl.
  - by rewrite app_nil_r.
  - by rewrite IH, <- app_assoc.
Qed.

Lemma collect_imports_spec nodes :
  collect_imports nodes = nodes ≫= recorded_imports.
Proof.
  unfold collect_imports.
  assert (G : forall acc,
    foldl (fun imports node =>
      let imports :=
        match cls (snd node) with
        | ast_Import =>
            foldl (fun imports name => imports ++ [PyStr.split_head "." name])
                  imports (alias_names node)
        | _ => imports
        end in
      match cls (snd node) with
      | ast_ImportFrom (Some module) => imports ++ [PyStr.split_head "." module]
      | ast_ImportFrom None => imports ++ [""]
      | _ => imports
      end) acc nodes = acc ++ (nodes ≫= recorded_imports)).
  { induction nodes as [|o nodes IH]; intros acc; simpl.
    - by rewrite app_nil_r.
    - rewrite IH. unfold recorded_imports at 2.
      destruct (cls (snd o)); cbv zeta iota;
        try (match goal with m : option string |- _ => destruct m end);
        cbv iota; rewrite ?foldl_snoc_each, <- ?app_assoc, ?app_nil_r; done. }
  apply (G []).
Qed.

Lemma collect_used_spec nodes x :
  x ∈ collect_used nodes <-> x ∈ omap (name_in_ctx is_Load) nodes.
Proof.
  unfold collect_used.
  assert (G : forall acc : gset string,
    x ∈ foldl (fun used_imports node =>
                 match name_in_ctx is_Load node with
                 | Some id => used_imports ∪ {[id]}
                 | None => used_imports
                 end) acc nodes
    <-> x ∈ acc \/ x ∈ omap (name_in_ctx is_Load) nodes).
  { induction nodes as [|o nodes IH]; intros acc; simpl.
    - rewrite elem_of_nil. tauto.
    - rewrite IH. destruct (name_in_ctx is_Load o) as [id|].
      + rewrite elem_of_cons, elem_of_union, elem_of_singleton. tauto.
      + done. }
  rewrite G. split; [intros [H|H]; [by apply elem_of_empty in H|done]|by right].
Qed.

Lemma run_check_unused_imports t r :
  tree r = Some t ->
  run check_unused_imports r = (Returns tt, add_issues (unused_imports t) r).
Proof.
  intros Ht. unfold check_unused_imports.
  rewrite (run_bind_returns _ _ r (root t) r) by by apply run_self_tree.
  cbv zeta. rewrite collect_imports_spec. fold (imported_modules t).
  apply (run_for_appends (fun _ => True)); [done| |done].
  intros i r' _ _. cbv beta.
  rewrite (bool_decide_ext _ (i ∈ names_read t)) by apply collect_used_spec.
  destruct (bool_decide _); simpl; [by rewrite run_ret, add_issues_nil|].
  apply run_append.
Qed.



(** ** Two runs on the same text *)









(** ** What the rules leave alone *)

Lemma only_issues_reads {A} (f : CodeReviewer -> outcome A) :
  only_issues (fun r => (f r, r)).
Proof. intros r. exists []. simpl. by rewrite add_issues_nil. Qed.

Lemma only_issues_ret {A} (a : A) : only_issues (mret a).
Proof. apply (only_issues_reads (fun _ => Returns a)). Qed.

Lemma only_issues_raise {A} e : only_issues (raise (A := A) e).
Proof. apply (only_issues_reads (fun _ => Raises e)). Qed.

Lemma only_issues_diverge {A} : only_issues (diverge (A := A)).
Proof. apply (only_issues_reads (fun _ => Diverges)). Qed.

Lemma only_issues_self_tree : only_issues self_tree.
Proof.
  intros r. exists []. unfold run, self_tree.
  destruct (tree r); simpl; by rewrite add_issues_nil.
Qed.

Lemma only_issues_self_lines : only_issues self_lines.
Proof. apply (only_issues_reads (fun r => Returns (lines r))). Qed.

Lemma only_issues_count_parent_attrs : only_issues count_parent_attrs.
Proof. apply (only_issues_reads (fun r => Returns (size (parent_attr r)))). Qed.

Lemma only_issues_getattr_parent o : only_issues (getattr_parent o).
Proof. apply (only_issues_reads (fun r => Returns (parent_attr r !! fst o))). Qed.

Lemma only_issues_append msg : only_issues (append msg).
Proof. intros r. by exists [msg]. Qed.

Lemma only_issues_bind {A B} (m : M A) (f : A -> M B) :
  only_issues m -> (forall a, only_issues (f a)) -> only_issues (m ≫= f).
Proof.
  intros Hm Hf r. rewrite run_bind. destruct (Hm r) as (l1 & Hl1).
  destruct (run m r) as [[a| |] r'] eqn:Hrun; simpl in *; eauto.
  destruct (Hf a r') as (l2 & Hl2). exists (l1 ++ l2).
  by rewrite Hl2, Hl1, add_issues_app.
Qed.

Lemma only_issues_when b m : only_issues m -> only_issues (when b m).
Proof. destruct b; [done|]. intros _. apply only_issues_ret. Qed.

Lemma only_issues_for {A} (l : list A) body :
  (forall x, only_issues (body x)) -> only_issues (for_ l body).
Proof.
  intros Hbody. induction l as [|x l IH]; simpl.
  - apply only_issues_ret.
  - apply only_issues_bind; [apply Hbody|]. by intros _.
Qed.

Lemma only_issues_for_carrying {A S} (l : list A) (s : S) body :
  (forall s x, only_issues (body s x)) -> only_issues (for_carrying l s body).
Proof.
  intros Hbody. revert s. induction l as [|x l IH]; intros s; simpl.
  - apply only_issues_ret.
  - apply only_issues_bind; [apply Hbody|]. intros s'. apply IH.
Qed.

Lemma only_issues_parents_loop fuel o : only_issues (parents_loop fuel o).
Proof.
  revert o. induction fuel as [|fuel IH]; intros o; simpl.
  - apply only_issues_diverge.
  - apply only_issues_bind; [apply only_issues_getattr_parent|].
    intros [o'|]; [|apply only_issues_ret].
    apply only_issues_bind; [apply IH|]. intros ?. apply only_issues_ret.
Qed.

Lemma only_issues_parents_of o : only_issues (parents_of o).
Proof.
  apply only_issues_bind; [apply only_issues_count_parent_attrs|].
  intros n. apply only_issues_parents_loop.
Qed.

Ltac only_issues_step :=
  lazymatch goal with
  | |- only_issues (_ ≫= _) => apply only_issues_bind; [|intros ?]
  | |- only_issues (for_ _ _) => apply only_issues_for; intros ?
  | |- only_issues (for_carrying _ _ _) =>
      apply only_issues_for_carrying; intros ? ?
  | |- only_issues (when _ _) => apply only_issues_when
  | |- only_issues (mret _) => apply only_issues_ret
  | |- only_issues (raise _) => apply only_issues_raise
  | |- only_issues diverge => apply only_issues_diverge
  | |- only_issues self_tree => apply only_issues_self_tree
  | |- only_issues self_lines => apply only_issues_self_lines
  | |- only_issues count_parent_attrs => apply only_issues_count_parent_attrs
  | |- only_issues (getattr_parent _) => apply only_issues_getattr_parent
  | |- only_issues (parents_of _) => apply only_issues_parents_of
  | |- only_issues (append _) => apply only_issues_append
  | |- only_issues (match ?x with _ => _ end) => destruct x
  end.

Ltac only_issues_auto := repeat only_issues_step.

Lemma unreachable_loop_only_issues fuel node parent :
  only_issues (unreachable_loop fuel node parent).
Proof.
  revert parent. induction fuel as [|fuel IH]; intros parent; simpl.
  - apply only_issues_diverge.
  - destruct (body_attr _); only_issues_auto. apply IH.
Qed.

Lemma check_style_only_issues E code : only_issues (check_style E code).
Proof. unfold check_style. only_issues_auto. Qed.

Lemma check_missing_docstrings_only_issues E : only_issues (check_missing_docstrings E).
Proof. unfold check_missing_docstrings. only_issues_auto. Qed.

Lemma check_class_names_only_issues : only_issues (check_class_names).
Proof. unfold check_class_names. only_issues_auto. Qed.

Lemma check_function_names_only_issues : only_issues (check_function_names).
Proof. unfold check_function_names. only_issues_auto. Qed.

Lemma check_variable_names_only_issues : only_issues (check_variable_names).
Proof. unfold check_variable_names. only_issues_auto. Qed.

Lemma check_constant_names_only_issues : only_issues (check_constant_names).
Proof. unfold check_constant_names. only_issues_auto. Qed.

Lemma check_unused_imports_only_issues : only_issues (check_unused_imports).
Proof. unfold check_unused_imports. only_issues_auto. Qed.

Lemma check_redefined_builtins_only_issues : only_issues (check_redefined_builtins).
Proof. unfold check_redefined_builtins. only_issues_auto. Qed.

Lemma check_magic_methods_only_issues : only_issues (check_magic_methods).
Proof. unfold check_magic_methods. only_issues_auto. Qed.

Lemma check_unreachable_code_only_issues : only_issues (check_unreachable_code).
Proof. unfold check_unreachable_code. only_issues_auto. apply unreachable_loop_only_issues. Qed.

Lemma check_too_many_branches_only_issues : only_issues (check_too_many_branches).
Proof. unfold check_too_many_branches. only_issues_auto. Qed.

Lemma check_too_many_arguments_only_issues : only_issues (check_too_many_arguments).
Proof. unfold check_too_many_arguments. only_issues_auto. Qed.

Lemma check_nested_functions_only_issues : only_issues (check_nested_functions).
Proof. unfold check_nested_functions. only_issues_auto. Qed.

Lemma check_empty_blocks_only_issues : only_issues (check_empty_blocks).
Proof. unfold check_empty_blocks. only_issues_auto. Qed.

Lemma check_break_outside_loop_only_issues : only_issues (check_break_outside_loop).
Proof. unfold check_break_outside_loop. only_issues_auto. Qed.

Lemma check_continue_outside_loop_only_issues : only_issues (check_continue_outside_loop).
Proof. unfold check_continue_outside_loop. only_issues_auto. Qed.

Lemma check_raise_without_exception_only_issues : only_issues (check_raise_without_exception).
Proof. unfold check_raise_without_exception. only_issues_auto. Qed.

Lemma check_return_outside_function_only_issues : only_issues (check_return_outside_function).
Proof. unfold check_return_outside_function. only_issues_auto. Qed.

Lemma check_global_usage_only_issues : only_issues (check_global_usage).
Proof. unfold check_global_usage. only_issues_auto. Qed.

Lemma check_nonlocal_usage_only_issues : only_issues (check_nonlocal_usage).
Proof. unfold check_nonlocal_usage. only_issues_auto. Qed.

Lemma check_mutable_defaults_only_issues : only_issues (check_mutable_defaults).
Proof. unfold check_mutable_defaults. only_issues_auto. Qed.

Lemma check_print_statements_only_issues : only_issues (check_print_statements).
Proof. unfold check_print_statements. only_issues_auto. Qed.

Lemma check_exec_usage_only_issues : only_issues (check_exec_usage).
Proof. unfold check_exec_usage. only_issues_auto. Qed.

Lemma check_eval_usage_only_issues : only_issues (check_eval_usage).
Proof. unfold check_eval_usage. only_issues_auto. Qed.

Lemma check_pass_statements_only_issues : only_issues (check_pass_statements).
Proof. unfold check_pass_statements. only_issues_auto. Qed.

Lemma check_comment_format_only_issues : only_issues (check_comment_format).
Proof. unfold check_comment_format. only_issues_auto. Qed.

Lemma check_magic_number_only_issues E : only_issues (check_magic_number E).
Proof. unfold check_magic_number. only_issues_auto. Qed.

Lemma check_boolean_traps_only_issues : only_issues (check_boolean_traps).
Proof. unfold check_boolean_traps. only_issues_auto. Qed.

Lemma check_todo_comments_only_issues : only_issues (check_todo_comments).
Proof. unfold check_todo_comments. only_issues_auto. Qed.

Lemma check_long_lines_only_issues : only_issues (check_long_lines).
Proof. unfold check_long_lines. only_issues_auto. Qed.

Lemma check_multiple_imports_on_one_line_only_issues : only_issues (check_multiple_imports_on_one_line).
Proof. unfold check_multiple_imports_on_one_line. only_issues_auto. Qed.

Lemma check_bad_indentation_only_issues : only_issues (check_bad_indentation).
Proof. unfold check_bad_indentation. only_issues_auto. Qed.

Lemma check_semicolons_only_issues : only_issues (check_semicolons).
Proof. unfold check_semicolons. only_issues_auto. Qed.

Lemma check_tabs_only_issues : only_issues (check_tabs).
Proof. unfold check_tabs. only_issues_auto. Qed.

Lemma check_trailing_whitespace_only_issues : only_issues (check_trailing_whitespace).
Proof. unfold check_trailing_whitespace. only_issues_auto. Qed.

Lemma check_multiple_statements_only_issues : only_issues (check_multiple_statements).
Proof. unfold check_multiple_statements. only_issues_auto. Qed.

Lemma check_exception_handling_only_issues : only_issues (check_exception_handling).
Proof. unfold check_exception_handling. only_issues_auto. Qed.

Lemma check_empty_exceptions_only_issues : only_issues (check_empty_exceptions).
Proof. unfold check_empty_exceptions. only_issues_auto. Qed.

Lemma check_useless_else_on_loop_only_issues : only_issues (check_useless_else_on_loop).
Proof. unfold check_useless_else_on_loop. only_issues_auto. Qed.

Lemma check_direct_exit_calls_only_issues : only_issues (check_direct_exit_calls).
Proof. unfold check_direct_exit_calls. only_issues_auto. Qed.

Lemma check_recursion_limit_only_issues : only_issues (check_recursion_limit).
Proof. unfold check_recursion_limit. only_issues_auto. Qed.

Lemma check_lambda_usage_only_issues : only_issues (check_lambda_usage).
Proof. unfold check_lambda_usage. only_issues_auto. Qed.

Lemma check_format_vs_fstring_only_issues : only_issues (check_format_vs_fstring).
Proof. unfold check_format_vs_fstring. only_issues_auto. Qed.

Lemma check_mutable_class_vars_only_issues : only_issues (check_mutable_class_vars).
Proof. unfold check_mutable_class_vars. only_issues_auto. Qed.

Lemma check_inconsistent_return_only_issues : only_issues (check_inconsistent_return).
Proof. unfold check_inconsistent_return. only_issues_auto. Qed.

Lemma check_wildcard_imports_only_issues : only_issues (check_wildcard_imports).
Proof. unfold check_wildcard_imports. only_issues_auto. Qed.

Lemma check_multiple_consecutive_blank_lines_only_issues : only_issues (check_multiple_consecutive_blank_lines).
Proof. unfold check_multiple_consecutive_blank_lines. only_issues_auto. Qed.

Lemma check_very_large_functions_only_issues : only_issues (check_very_large_functions).
Proof. unfold check_very_large_functions. only_issues_auto. Qed.

Lemma rules_only_issues E code :
  Forall only_issues (drop 1 (rule_catalog E code)).
Proof.
  unfold rule_catalog. cbn [drop].
  constructor; [exact (check_style_only_issues E code)|].
  constructor; [exact (check_missing_docstrings_only_issues E)|].
  constructor; [exact check_class_names_only_issues|].
  constructor; [exact check_function_names_only_issues|].
  constructor; [exact check_variable_names_only_issues|].
  constructor; [exact check_constant_names_only_issues|].
  constructor; [exact check_unused_imports_only_issues|].
  constructor; [exact check_redefined_builtins_only_issues|].
  constructor; [exact check_magic_methods_only_issues|].
  constructor; [exact check_unreachable_code_only_issues|].
  constructor; [exact check_too_many_branches_only_issues|].
  constructor; [exact check_too_many_arguments_only_issues|].
  constructor; [exact check_nested_functions_only_issues|].
  constructor; [exact check_empty_blocks_only_issues|].
  constructor; [exact check_break_outside_loop_only_issues|].
  constructor; [exact check_continue_outside_loop_only_issues|].
  constructor; [exact check_raise_without_exception_only_issues|].
  constructor; [exact check_return_outside_function_only_issues|].
  constructor; [exact check_global_usage_only_issues|].
  constructor; [exact check_nonlocal_usage_only_issues|].
  constructor; [exact check_mutable_defaults_only_issues|].
  constructor; [exact check_print_statements_only_issues|].
  constructor; [exact check_exec_usage_only_issues|].
  constructor; [exact check_eval_usage_only_issues|].
  constructor; [exact check_pass_statements_only_issues|].
  constructor; [exact check_comment_format_only_issues|].
  constructor; [exact (check_magic_number_only_issues E)|].
  constructor; [exact check_boolean_traps_only_issues|].
  constructor; [exact check_todo_comments_only_issues|].
  constructor; [exact check_long_lines_only_issues|].
  constructor; [exact check_multiple_imports_on_one_line_only_issues|].
  constructor; [exact check_bad_indentation_only_issues|].
  constructor; [exact check_semicolons_only_issues|].
  constructor; [exact check_tabs_only_issues|].
  constructor; [exact check_trailing_whitespace_only_issues|].
  constructor; [exact check_multiple_statements_only_issues|].
  constructor; [exact check_exception_handling_only_issues|].
  constructor; [exact check_empty_exceptions_only_issues|].
  constructor; [exact check_useless_else_on_loop_only_issues|].
  constructor; [exact check_direct_exit_calls_only_issues|].
  constructor; [exact check_recursion_limit_only_issues|].
  constructor; [exact check_lambda_usage_only_issues|].
  constructor; [exact check_format_vs_fstring_only_issues|].
  constructor; [exact check_mutable_class_vars_only_issues|].
  constructor; [exact check_inconsistent_return_only_issues|].
  constructor; [exact check_wildcard_imports_only_issues|].
  constructor; [exact check_multiple_consecutive_blank_lines_only_issues|].
  constructor; [exact check_very_large_functions_only_issues|].
  constructor.
Qed.

Lemma run_all_only_issues rules :
  Forall only_issues rules -> only_issues (run_all rules).
Proof.
  induction 1 as [|rule rules Hrule _ IH]; simpl.
  - apply only_issues_ret.
  - apply only_issues_bind; [done|]. by intros _.
Qed.

(** ** The parent attributes once more *)

Lemma links_walk_functional t k v v' :
  (k, v) ∈ links (walk (root t)) -> (k, v') ∈ links (walk (root t)) -> v = v'.
Proof.
  intros (i & Hk & Hv & _)%links_walk (j & Hk' & Hv' & _)%links_walk.
  destruct v as [q m], v' as [q' m']. simpl in *. simplify_eq. done.
Qed.


Lemma set_parents_links_idem t s :
  set_parents (set_parents s (links (walk (root t)))) (links (walk (root t)))
  = set_parents s (links (walk (root t))).
Proof.
  apply map_eq. intros k.
  destruct (decide (k ∈ (links (walk (root t))).*1)) as [Hin|Hout].
  - apply list_elem_of_fmap in Hin as ([k' v] & -> & Hin). simpl.
    rewrite !(set_parents_lookup_Some _ _ k' v); eauto using links_walk_functional.
  - rewrite !set_parents_lookup_None; [done|..];
      intros v Hin; apply Hout, list_elem_of_fmap; by exists (k, v).
Qed.





(** ** The state that [analyze] leaves *)




(** ** Calls that follow one another *)

(** X8.  On a reviewer that holds no tree, a text that the parser rejects
    gives exactly one more diagnostic, the parse failure; no rule runs, the
    lines are those of the text and there is still no tree. *)
Theorem malformed_text_without_tree E code e r :
  ast_parse E code = SyntaxError e ->
  tree r = None ->
  run (analyze E code) r
  = (Returns tt,
     mkCodeReviewer (issues r ++ ["SyntaxError: " +:+ e])
       (PyStr.split "010" code) None (parent_attr r)).
Proof.
  intros He Ht. rewrite (run_analyze_malformed E _ _ _ He).
  unfold analyze_rules, run, self_tree_or_none, mbind, M_bind. simpl.
  by rewrite Ht.
Qed.

Lemma malformed_text_without_tree_witness :
  ast_parse sample src_malformed = SyntaxError msg_malformed /\
  tree new_reviewer = None /\
  run (analyze sample src_malformed) new_reviewer
  = (Returns tt,
     mkCodeReviewer (issues new_reviewer ++ ["SyntaxError: " +:+ msg_malformed])
       (PyStr.split "010" src_malformed) None (parent_attr new_reviewer)).
Proof.
  split; [reflexivity|]. split; [reflexivity|].
  apply (malformed_text_without_tree sample src_malformed msg_malformed
           new_reviewer); reflexivity.
Defined.

Lemma prepend_issues r : prepend (issues r) (with_issues [] r) = r.
Proof. unfold prepend, with_issues. simpl. rewrite app_nil_r. by destruct r. Qed.

Lemma run_uniform {A} P (m : M A) r :
  append_only P m ->
  fst (run m r) = fst (run m (with_issues [] r)) /\
  issues (snd (run m r)) = issues r ++ issues (snd (run m (with_issues [] r))).
Proof.
  intros [_ H]. rewrite <- (prepend_issues r) at 1 3. rewrite H. done.
Qed.

(** Two states that differ in their diagnostics only give the same outcome
    and the same new diagnostics. *)
Lemma run_same_but_issues {A} P (m : M A) r1 r2 :
  append_only P m ->
  with_issues [] r1 = with_issues [] r2 ->
  fst (run m r1) = fst (run m r2) /\
  exists l, issues (snd (run m r1)) = issues r1 ++ l /\
            issues (snd (run m r2)) = issues r2 ++ l.
Proof.
  intros Hm Heq.
  destruct (run_uniform P m r1 Hm) as [Ho1 Hi1].
  destruct (run_uniform P m r2 Hm) as [Ho2 Hi2].
  split; [by rewrite Ho1, Ho2, Heq|].
  exists (issues (snd (run m (with_issues [] r1)))).
  split; [done|]. by rewrite Hi2, Heq.
Qed.

(** X9.  Whatever the state of the reviewer and whatever the text, a second
    call of [analyze] on the same text ends as the first did and appends the
    same diagnostics, in the same order, once more. *)
Theorem analyze_twice E code r :
  exists l,
    issues (snd (run (analyze E code) r)) = issues r ++ l /\
    issues (snd (run (analyze E code) (snd (run (analyze E code) r))))
      = (issues r ++ l) ++ l /\
    fst (run (analyze E code) (snd (run (analyze E code) r)))
      = fst (run (analyze E code) r).
Proof.
  destruct (ast_parse E code) as [t|e] eqn:Hparse.
  - (* the text parses: both calls start from the new tree *)
    rewrite !(run_analyze_parsed E code t _ Hparse).
    pose proof (run_all_append_only catalogued _ (rule_catalog_append_only E code))
      as Hrules.
    set (rules := run_all (rule_catalog E code)) in *.
    destruct (run_same_but_issues _ rules
                (loaded code t r)
                (loaded code t (snd (run rules (loaded code t r))))
                Hrules eq_refl) as (Ho & l & Hl1 & Hl2).
    exists l. split_and!.
    + exact Hl1.
    + etrans; [exact Hl2|]. f_equal. exact Hl1.
    + symmetry. exact Ho.
  - (* the text does not parse *)
    rewrite !(run_analyze_malformed E code e _ Hparse).
    destruct (tree r) as [t|] eqn:Ht.
    + (* the rules run on the tree the reviewer holds *)
      set (msg := "SyntaxError: " +:+ e).
      set (r0 := add_issues [msg]
                   (mkCodeReviewer (issues r) (PyStr.split "010" code)
                      (Some t) (parent_attr r))).
      assert (Ht0 : tree r0 = Some t) by done.
      assert (Hrun : forall r', tree r' = Some t ->
        run (analyze_rules E code) r'
        = run (run_all (drop 1 (rule_catalog E code)))
            (with_parent_attr
               (set_parents (parent_attr r') (links (walk (root t)))) r')).
      { intros r' Hr'. unfold analyze_rules.
        rewrite (run_bind_returns _ _ r' (Some t) r')
          by (unfold run, self_tree_or_none; by rewrite Hr').
        change (rule_catalog E code)
          with (check_line_numbers :: drop 1 (rule_catalog E code)) at 1.
        cbn [run_all foldr].
        by rewrite (run_bind_returns _ _ _ _ _ (run_check_line_numbers r' t Hr')). }
      rewrite (Hrun r0 Ht0).
      set (rules := run_all (drop 1 (rule_catalog E code))).
      set (r1 := with_parent_attr _ r0).
      destruct (run_all_only_issues _ (rules_only_issues E code) r1)
        as (l' & Hl'). fold rules in Hl'.
      set (r2 := add_issues [msg] _).
      assert (Ht2 : tree r2 = Some t) by (subst r2; rewrite Hl'; done).
      rewrite (Hrun r2 Ht2). fold rules.
      assert (Hrules : append_only catalogued rules).
      { apply run_all_append_only, Forall_drop, rule_catalog_append_only. }
      destruct (run_same_but_issues _ rules r1
                  (with_parent_attr
                     (set_parents (parent_attr r2) (links (walk (root t)))) r2)
                  Hrules) as (Ho & l & Hl1 & Hl2).
      { subst r2. rewrite Hl'. subst r1 r0. unfold with_issues, with_parent_attr.
        simpl. by rewrite set_parents_links_idem. }
      exists (msg :: l). split_and!.
      * rewrite Hl1. subst r1 r0. simpl. by rewrite <- app_assoc.
      * rewrite Hl2. unfold r2, with_parent_attr, add_issues, with_issues.
        cbn [issues]. rewrite Hl1. unfold r1, r0, with_parent_attr, add_issues,
          with_issues. cbn [issues]. by rewrite <- !app_assoc.
      * done.
    + unfold analyze_rules, run, self_tree_or_none, mbind, M_bind. simpl.
      exists ["SyntaxError: " +:+ e]. done.
Qed.

(** ** Rules that look at the parents *)

Lemma run_check_return_outside_function t r :
  tree r = Some t -> parent_attr r = linked t ->
  run check_return_outside_function r
  = (Returns tt, add_issues (returns_outside_function t) r).
Proof.
  intros Ht Hp. unfold check_return_outside_function.
  rewrite (run_bind_returns _ _ r (root t) r) by by apply run_self_tree.
  apply (run_for_appends (fun r => parent_attr r = linked t)); [done| |done].
  intros [p n] r' Hin Hr'. apply elem_of_walk in Hin. unfold none_above. simpl.
  destruct (cls n) eqn:Hc; simpl; try by rewrite run_ret, add_issues_nil.
  rewrite (run_bind_returns _ _ r' _ r' (run_parents_of t r' p n Hr' Hin)).
  cbn [existsb snd]. rewrite Hc. simpl.
  destruct (existsb _ (ancestors t p)); simpl.
  - by rewrite run_ret, add_issues_nil.
  - unfold line. simpl. apply run_append.
Qed.

(** X1.  On a newly parsed tree, once [check_line_numbers] has run,
    [check_return_outside_function] returns and appends one diagnostic for
    each [Return] above which there is neither a [FunctionDef] nor an
    [AsyncFunctionDef], and nothing for any other node. *)
Theorem return_flagged_iff_no_function_above t r :
  run (check_line_numbers;; check_return_outside_function) (parsed t r)
  = (Returns tt,
     add_issues (returns_outside_function t)
       (with_parent_attr (linked t) (parsed t r))).
Proof.
  rewrite (run_bind_returns _ _ _ _ _
             (run_check_line_numbers (parsed t r) t eq_refl)).
  by apply run_check_return_outside_function.
Qed.

Lemma run_check_pass_statements t r :
  tree r = Some t -> parent_attr r = linked t -> cls t <> ast_Pass ->
  run check_pass_statements r = (Returns tt, add_issues (needless_passes t) r).
Proof.
  intros Ht Hp Hroot. unfold check_pass_statements.
  rewrite (run_bind_returns _ _ r (root t) r) by by apply run_self_tree.
  apply (run_for_appends (fun r => parent_attr r = linked t)); [done| |done].
  intros [p n] r' Hin Hr'. apply elem_of_walk in Hin. cbn [fst snd].
  destruct (cls n) eqn:Hc; cbv beta iota; try by rewrite run_ret, add_issues_nil.
  destruct p as [|i q].
  { simpl in Hin. simplify_eq. }
  destruct (linked_child t ∅ i q n Hin) as (m & Hm & Hlook).
  rewrite (run_bind_returns _ _ r' (Some (q, m)) r')
    by (unfold run, getattr_parent; cbn [fst]; by rewrite Hr'; unfold linked; rewrite Hlook).
  cbn [ancestors]. rewrite Hm. cbn [snd].
  destruct (cls m); cbv beta iota; simpl shelters_pass; cbv iota;
    first [by rewrite run_ret, add_issues_nil | apply run_append].
Qed.

(** X2.  On a newly parsed tree whose root is not itself a [Pass], once
    [check_line_numbers] has run, [check_pass_statements] returns and appends
    one diagnostic for each [Pass] whose parent is not a [FunctionDef], a
    [ClassDef] or an [If] (so a [Pass] that is the body of an
    [AsyncFunctionDef], a loop, a [with] or a handler is reported), and
    nothing for any other node. *)
Theorem pass_flagged_iff_parent_gives_no_shelter t r :
  cls t <> ast_Pass ->
  run (check_line_numbers;; check_pass_statements) (parsed t r)
  = (Returns tt,
     add_issues (needless_passes t) (with_parent_attr (linked t) (parsed t r))).
Proof.
  intros Hroot.
  rewrite (run_bind_returns _ _ _ _ _
             (run_check_line_numbers (parsed t r) t eq_refl)).
  by apply run_check_pass_statements.
Qed.

Lemma pass_flagged_iff_parent_gives_no_shelter_witness :
  cls tree_else_return <> ast_Pass /\
  run (check_line_numbers;; check_pass_statements)
      (parsed tree_else_return new_reviewer)
  = (Returns tt,
     add_issues (needless_passes tree_else_return)
       (with_parent_attr (linked tree_else_return)
          (parsed tree_else_return new_reviewer))).
Proof.
  assert (H : cls tree_else_return <> ast_Pass) by discriminate.
  split; [exact H|].
  apply (pass_flagged_iff_parent_gives_no_shelter tree_else_return new_reviewer H).
Defined.

(** ** Rules that cannot fail *)

Lemma returns_with_tree_reads {A} (f : CodeReviewer -> A) :
  returns_with_tree (fun r => (Returns (f r), r)).
Proof. intros r _. exists (f r), []. by rewrite add_issues_nil. Qed.

Lemma returns_with_tree_ret {A} (a : A) : returns_with_tree (mret a).
Proof. apply (returns_with_tree_reads (fun _ => a)). Qed.

Lemma returns_with_tree_self_tree : returns_with_tree self_tree.
Proof.
  intros r Hr. unfold run, self_tree. destruct (tree r) as [t|]; [|done].
  exists (root t), []. by rewrite add_issues_nil.
Qed.

Lemma returns_with_tree_self_lines : returns_with_tree self_lines.
Proof. apply (returns_with_tree_reads lines). Qed.

Lemma returns_with_tree_append msg : returns_with_tree (append msg).
Proof. intros r _. by exists tt, [msg]. Qed.

Lemma returns_with_tree_bind {A B} (m : M A) (f : A -> M B) :
  returns_with_tree m -> (forall a, returns_with_tree (f a)) ->
  returns_with_tree (m ≫= f).
Proof.
  intros Hm Hf r Hr. destruct (Hm r Hr) as (a & l1 & Hrun).
  rewrite (run_bind_returns _ _ _ _ _ Hrun).
  destruct (Hf a (add_issues l1 r) Hr) as (b & l2 & Hrun2).
  exists b, (l1 ++ l2). by rewrite Hrun2, add_issues_app.
Qed.

Lemma returns_with_tree_when b m :
  returns_with_tree m -> returns_with_tree (when b m).
Proof. destruct b; [done|]. intros _. apply returns_with_tree_ret. Qed.

Lemma returns_with_tree_for {A} (l : list A) body :
  (forall x, returns_with_tree (body x)) -> returns_with_tree (for_ l body).
Proof.
  intros Hbody. induction l as [|x l IH]; simpl.
  - apply returns_with_tree_ret.
  - apply returns_with_tree_bind; [apply Hbody|]. by intros _.
Qed.

Lemma returns_with_tree_for_carrying {A S} (l : list A) (s : S) body :
  (forall s x, returns_with_tree (body s x)) ->
  returns_with_tree (for_carrying l s body).
Proof.
  intros Hbody. revert s. induction l as [|x l IH]; intros s; simpl.
  - apply returns_with_tree_ret.
  - apply returns_with_tree_bind; [apply Hbody|]. intros s'. apply IH.
Qed.

Ltac returns_with_tree_step :=
  lazymatch goal with
  | |- returns_with_tree (_ ≫= _) => apply returns_with_tree_bind; [|intros ?]
  | |- returns_with_tree (for_ _ _) => apply returns_with_tree_for; intros ?
  | |- returns_with_tree (for_carrying _ _ _) =>
      apply returns_with_tree_for_carrying; intros ? ?
  | |- returns_with_tree (when _ _) => apply returns_with_tree_when
  | |- returns_with_tree (mret _) => apply returns_with_tree_ret
  | |- returns_with_tree self_tree => apply returns_with_tree_self_tree
  | |- returns_with_tree self_lines => apply returns_with_tree_self_lines
  | |- returns_with_tree (append _) => apply returns_with_tree_append
  | |- returns_with_tree (match ?x with _ => _ end) => destruct x
  end.

Ltac returns_with_tree_auto := repeat returns_with_tree_step.

Lemma check_style_returns E code : returns_with_tree (check_style E code).
Proof. unfold check_style. returns_with_tree_auto. Qed.

Lemma check_missing_docstrings_returns E : returns_with_tree (check_missing_docstrings E).
Proof. unfold check_missing_docstrings. returns_with_tree_auto. Qed.

Lemma check_class_names_returns : returns_with_tree (check_class_names).
Proof. unfold check_class_names. returns_with_tree_auto. Qed.

Lemma check_function_names_returns : returns_with_tree (check_function_names).
Proof. unfold check_function_names. returns_with_tree_auto. Qed.

Lemma check_variable_names_returns : returns_with_tree (check_variable_names).
Proof. unfold check_variable_names. returns_with_tree_auto. Qed.

Lemma check_constant_names_returns : returns_with_tree (check_constant_names).
Proof. unfold check_constant_names. returns_with_tree_auto. Qed.

Lemma check_unused_imports_returns : returns_with_tree (check_unused_imports).
Proof. unfold check_unused_imports. returns_with_tree_auto. Qed.

Lemma check_redefined_builtins_returns : returns_with_tree (check_redefined_builtins).
Proof. unfold check_redefined_builtins. returns_with_tree_auto. Qed.

Lemma check_magic_methods_returns : returns_with_tree (check_magic_methods).
Proof. unfold check_magic_methods. returns_with_tree_auto. Qed.

Lemma check_too_many_branches_returns : returns_with_tree (check_too_many_branches).
Proof. unfold check_too_many_branches. returns_with_tree_auto. Qed.

Lemma check_too_many_arguments_returns : returns_with_tree (check_too_many_arguments).
Proof. unfold check_too_many_arguments. returns_with_tree_auto. Qed.

Lemma check_nested_functions_returns : returns_with_tree (check_nested_functions).
Proof. unfold check_nested_functions. returns_with_tree_auto. Qed.

Lemma check_empty_blocks_returns : returns_with_tree (check_empty_blocks).
Proof. unfold check_empty_blocks. returns_with_tree_auto. Qed.

Lemma check_raise_without_exception_returns : returns_with_tree (check_raise_without_exception).
Proof. unfold check_raise_without_exception. returns_with_tree_auto. Qed.

Lemma check_global_usage_returns : returns_with_tree (check_global_usage).
Proof. unfold check_global_usage. returns_with_tree_auto. Qed.

Lemma check_nonlocal_usage_returns : returns_with_tree (check_nonlocal_usage).
Proof. unfold check_nonlocal_usage. returns_with_tree_auto. Qed.

Lemma check_mutable_defaults_returns : returns_with_tree (check_mutable_defaults).
Proof. unfold check_mutable_defaults. returns_with_tree_auto. Qed.

Lemma check_print_statements_returns : returns_with_tree (check_print_statements).
Proof. unfold check_print_statements. returns_with_tree_auto. Qed.

Lemma check_exec_usage_returns : returns_with_tree (check_exec_usage).
Proof. unfold check_exec_usage. returns_with_tree_auto. Qed.

Lemma check_eval_usage_returns : returns_with_tree (check_eval_usage).
Proof. unfold check_eval_usage. returns_with_tree_auto. Qed.

Lemma check_comment_format_returns : returns_with_tree (check_comment_format).
Proof. unfold check_comment_format. returns_with_tree_auto. Qed.

Lemma check_magic_number_returns E : returns_with_tree (check_magic_number E).
Proof. unfold check_magic_number. returns_with_tree_auto. Qed.

Lemma check_boolean_traps_returns : returns_with_tree (check_boolean_traps).
Proof. unfold check_boolean_traps. returns_with_tree_auto. Qed.

Lemma check_todo_comments_returns : returns_with_tree (check_todo_comments).
Proof. unfold check_todo_comments. returns_with_tree_auto. Qed.

Lemma check_long_lines_returns : returns_with_tree (check_long_lines).
Proof. unfold check_long_lines. returns_with_tree_auto. Qed.

Lemma check_multiple_imports_on_one_line_returns : returns_with_tree (check_multiple_imports_on_one_line).
Proof. unfold check_multiple_imports_on_one_line. returns_with_tree_auto. Qed.

Lemma check_bad_indentation_returns : returns_with_tree (check_bad_indentation).
Proof. unfold check_bad_indentation. returns_with_tree_auto. Qed.

Lemma check_semicolons_returns : returns_with_tree (check_semicolons).
Proof. unfold check_semicolons. returns_with_tree_auto. Qed.

Lemma check_tabs_returns : returns_with_tree (check_tabs).
Proof. unfold check_tabs. returns_with_tree_auto. Qed.

Lemma check_trailing_whitespace_returns : returns_with_tree (check_trailing_whitespace).
Proof. unfold check_trailing_whitespace. returns_with_tree_auto. Qed.

Lemma check_multiple_statements_returns : returns_with_tree (check_multiple_statements).
Proof. unfold check_multiple_statements. returns_with_tree_auto. Qed.

Lemma check_exception_handling_returns : returns_with_tree (check_exception_handling).
Proof. unfold check_exception_handling. returns_with_tree_auto. Qed.

Lemma check_empty_exceptions_returns : returns_with_tree (check_empty_exceptions).
Proof. unfold check_empty_exceptions. returns_with_tree_auto. Qed.

Lemma check_useless_else_on_loop_returns : returns_with_tree (check_useless_else_on_loop).
Proof. unfold check_useless_else_on_loop. returns_with_tree_auto. Qed.

Lemma check_direct_exit_calls_returns : returns_with_tree (check_direct_exit_calls).
Proof. unfold check_direct_exit_calls. returns_with_tree_auto. Qed.

Lemma check_recursion_limit_returns : returns_with_tree (check_recursion_limit).
Proof. unfold check_recursion_limit. returns_with_tree_auto. Qed.

Lemma check_lambda_usage_returns : returns_with_tree (check_lambda_usage).
Proof. unfold check_lambda_usage. returns_with_tree_auto. Qed.

Lemma check_format_vs_fstring_returns : returns_with_tree (check_format_vs_fstring).
Proof. unfold check_format_vs_fstring. returns_with_tree_auto. Qed.

Lemma check_mutable_class_vars_returns : returns_with_tree (check_mutable_class_vars).
Proof. unfold check_mutable_class_vars. returns_with_tree_auto. Qed.

Lemma check_inconsistent_return_returns : returns_with_tree (check_inconsistent_return).
Proof. unfold check_inconsistent_return. returns_with_tree_auto. Qed.

Lemma check_wildcard_imports_returns : returns_with_tree (check_wildcard_imports).
Proof. unfold check_wildcard_imports. returns_with_tree_auto. Qed.

Lemma check_multiple_consecutive_blank_lines_returns : returns_with_tree (check_multiple_consecutive_blank_lines).
Proof. unfold check_multiple_consecutive_blank_lines. returns_with_tree_auto. Qed.

Lemma check_very_large_functions_returns : returns_with_tree (check_very_large_functions).
Proof. unfold check_very_large_functions. returns_with_tree_auto. Qed.

(** ** The unreachable-code rule *)

Lemma elem_of_child_objs o f c :
  (f, c) ∈ child_objs o <->
  exists i, children (snd o) !! i = Some (f, snd c) /\ fst c = i :: fst o.
Proof.
  unfold child_objs. split.
  - intros Hin. apply list_elem_of_lookup in Hin as [i Hi].
    rewrite list_lookup_imap in Hi.
    destruct (children (snd o) !! i) as [[f' m]|] eqn:Hch; simplify_eq/=.
    by exists i.
  - intros (i & Hch & Hp). apply list_elem_of_lookup. exists i.
    rewrite list_lookup_imap, Hch. simpl. destruct c as [p m]. simpl in *.
    by subst.
Qed.

Lemma elem_of_attr f o c :
  c ∈ attr f o <->
  exists i, children (snd o) !! i = Some (f, snd c) /\ fst c = i :: fst o.
Proof.
  unfold attr. rewrite list_elem_of_fmap. split.
  - intros ([f' c'] & -> & [Hf Hin]%list_elem_of_filter). simpl in *.
    apply Is_true_true, String.eqb_eq in Hf. subst f'.
    by apply elem_of_child_objs.
  - intros Hc. exists (f, c). split; [done|]. apply list_elem_of_filter. split.
    + simpl. apply Is_true_true, String.eqb_refl.
    + by apply elem_of_child_objs.
Qed.

Lemma index_of_None l x : fst x ∉ l.*1 -> index_of l x = None.
Proof.
  induction l as [|y l IH]; [done|]. rewrite fmap_cons, not_elem_of_cons.
  intros [Hy Hx]. simpl. rewrite bool_decide_false by done.
  by rewrite IH.
Qed.

Lemma index_of_Some l x : fst x ∈ l.*1 -> is_Some (index_of l x).
Proof.
  induction l as [|y l IH]; [by intros ?%elem_of_nil|].
  rewrite fmap_cons, elem_of_cons. intros Hx. simpl.
  destruct (bool_decide (fst y = fst x)) eqn:Hd; [eauto|].
  apply bool_decide_eq_false in Hd. destruct Hx as [Hx|Hx]; [congruence|].
  destruct (IH Hx) as [n ->]. simpl. eauto.
Qed.

Lemma linked_size t p n : node_at t p = Some n -> length p <= size (linked t).
Proof. apply depth_le_parent_attrs. Qed.

(** A [Return] that its parent holds elsewhere than in [body]. *)
Lemma run_unreachable_outside_body t r i q n m f :
  parent_attr r = linked t ->
  node_at t q = Some m -> children m !! i = Some (f, n) ->
  cls n = ast_Return -> body_attr (cls m) = BodyList -> f <> "body" ->
  run (k ← count_parent_attrs; unreachable_loop (S k) (i :: q, n) (i :: q, n)) r
  = (Raises ValueError, r).
Proof.
  intros Hr Hm Hch Hn Hbody Hf.
  assert (Hin : node_at t (i :: q) = Some n) by (simpl; by rewrite Hm, Hch).
  rewrite (run_bind_returns _ _ r (size (parent_attr r)) r) by done.
  pose proof (linked_size t _ _ Hin) as Hsize. rewrite <- Hr in Hsize.
  destruct (size (parent_attr r)) as [|k]; [simpl in Hsize; lia|].
  cbn [unreachable_loop snd]. rewrite Hn. cbn [body_attr].
  destruct (linked_child t ∅ i q n Hin) as (m' & Hm' & Hlook).
  assert (m' = m) as -> by congruence.
  rewrite (run_bind_returns _ _ r (Some (q, m)) r)
    by (unfold run, getattr_parent; cbn [fst]; rewrite Hr; unfold linked;
        by rewrite Hlook).
  cbn [unreachable_loop snd]. rewrite Hbody.
  rewrite index_of_None; [done|].
  intros ([p' n'] & Hp & (j & Hj & Hpj)%elem_of_attr)%list_elem_of_fmap.
  simpl in *. simplify_eq.
Qed.

Lemma run_for_lines l r :
  Forall (fun c : obj => has_lineno (cls (snd c)) = true) l ->
  exists found,
    run (for_ l (fun n =>
           if has_lineno (cls (snd n))
           then append ("Unreachable code after return in line " +:+ line n +:+ ".")
           else raise AttributeError)) r
    = (Returns tt, add_issues found r).
Proof.
  intros Hl. revert r. induction Hl as [|c l Hc _ IH]; intros r.
  - exists []. by rewrite add_issues_nil.
  - rewrite run_for_cons, Hc.
    rewrite (run_bind_returns _ _ r tt _ (run_append _ r)).
    destruct (IH (add_issues
                    ["Unreachable code after return in line " +:+ line c +:+ "."] r))
      as (found & ->).
    eexists. by rewrite add_issues_app.
Qed.

Lemma returns_in_bodies_spec t q m f c :
  returns_in_bodies t = true ->
  node_at t q = Some m -> (f, c) ∈ child_objs (q, m) ->
  cls (snd c) = ast_Return ->
  body_attr (cls m) = BodyList /\ f = "body" /\
  Forall (fun c : obj => has_lineno (cls (snd c)) = true) (attr "body" (q, m)).
Proof.
  unfold returns_in_bodies. rewrite forallb_forall. intros Hall Hm Hc Hret.
  specialize (Hall (q, m)). rewrite forallb_forall in Hall.
  assert (Hin : In (q, m) (walk (root t))).
  { apply list_elem_of_In, elem_of_walk. done. }
  specialize (Hall Hin (f, c)). apply list_elem_of_In in Hc.
  specialize (Hall Hc). simpl in Hall. rewrite Hret in Hall. simpl in Hall.
  apply andb_prop in Hall as [[H1 H2]%andb_prop H3]. split_and!.
  - unfold has_body_list in H1. by destruct (body_attr (cls m)).
  - by apply String.eqb_eq.
  - apply Forall_forall. intros c' Hc'. rewrite forallb_forall in H3.
    apply H3. by apply list_elem_of_In.
Qed.

(** A [Return] where [returns_in_bodies] wants it. *)
Lemma run_unreachable_in_body t r p n :
  returns_in_bodies t = true ->
  parent_attr r = linked t ->
  node_at t p = Some n -> cls n = ast_Return ->
  exists found,
    run (k ← count_parent_attrs; unreachable_loop (S k) (p, n) (p, n)) r
    = (Returns tt, add_issues found r).
Proof.
  intros Hgood Hr Hin Hn.
  rewrite (run_bind_returns _ _ r (size (parent_attr r)) r) by done.
  cbn [unreachable_loop snd]. rewrite Hn. cbn [body_attr].
  destruct p as [|i q].
  - rewrite (run_bind_returns _ _ r None r)
      by (unfold run, getattr_parent; cbn [fst]; rewrite Hr; unfold linked;
          by rewrite linked_root).
    exists []. by rewrite add_issues_nil.
  - pose proof (linked_size t _ _ Hin) as Hsize. rewrite <- Hr in Hsize.
    destruct (size (parent_attr r)) as [|k]; [simpl in Hsize; lia|].
    destruct (linked_child t ∅ i q n Hin) as (m & Hm & Hlook).
    rewrite (run_bind_returns _ _ r (Some (q, m)) r)
      by (unfold run, getattr_parent; cbn [fst]; rewrite Hr; unfold linked;
          by rewrite Hlook).
    simpl in Hin. rewrite Hm in Hin.
    destruct (children m !! i) as [[f n']|] eqn:Hch; simplify_eq/=.
    destruct (returns_in_bodies_spec t q m f (i :: q, n) Hgood Hm)
      as (Hbody & -> & Hlines); [apply elem_of_child_objs; eauto|done|].
    rewrite Hbody.
    destruct (index_of_Some (attr "body" (q, m)) (i :: q, n)) as [idx ->].
    { apply list_elem_of_fmap. exists (i :: q, n). split; [done|].
      apply elem_of_attr. eauto. }
    apply run_for_lines. by apply Forall_drop.
Qed.

Lemma returns_in_state t (m : M unit) : returns_with_tree m -> returns_on t m.
Proof.
  intros Hm r [Ht _]. destruct (Hm r) as ([] & l & Hrun); [congruence|eauto].
Qed.

Lemma run_all_returns t rules :
  Forall (returns_on t) rules -> returns_on t (run_all rules).
Proof.
  induction 1 as [|rule rules Hrule _ IH]; intros r Hr; simpl.
  - exists []. by rewrite add_issues_nil.
  - destruct (Hrule r Hr) as (l1 & Hrun1).
    rewrite (run_bind_returns _ _ _ _ _ Hrun1).
    destruct (IH (add_issues l1 r)) as (l2 & Hrun2); [done|].
    exists (l1 ++ l2). by rewrite Hrun2, add_issues_app.
Qed.

Lemma run_for_lines_ends (l : list obj) r :
  fst (run (for_ l (fun n =>
         if has_lineno (cls (snd n))
         then append ("Unreachable code after return in line " +:+ line n +:+ ".")
         else raise AttributeError)) r) <> Diverges.
Proof.
  revert r. induction l as [|c l IH]; intros r; [done|].
  rewrite run_for_cons, run_bind. destruct (has_lineno _); [|done].
  rewrite run_append. apply IH.
Qed.

Lemma unreachable_loop_ends fuel node t r :
  parent_attr r = linked t ->
  forall p n, node_at t p = Some n -> length p < fuel ->
  fst (run (unreachable_loop fuel node (p, n)) r) <> Diverges.
Proof.
  intros Hr p. revert fuel. induction p as [|i q IH]; intros fuel n Hn Hlt;
    (destruct fuel as [|fuel]; [simpl in Hlt; lia|]); cbn [unreachable_loop snd].
  - destruct (body_attr (cls n)); [| |done].
    + rewrite (run_bind_returns _ _ r None r); [done|].
      unfold run, getattr_parent. cbn [fst]. rewrite Hr. unfold linked.
      by rewrite linked_root.
    + destruct (index_of _ _); [apply run_for_lines_ends|done].
  - destruct (body_attr (cls n)); [| |done].
    + destruct (linked_child t ∅ i q n Hn) as (m & Hm & Hlook).
      rewrite (run_bind_returns _ _ r (Some (q, m)) r).
      * apply IH; [done|]. simpl in Hlt. lia.
      * unfold run, getattr_parent. cbn [fst]. rewrite Hr. unfold linked.
        by rewrite Hlook.
    + destruct (index_of _ _); [apply run_for_lines_ends|done].
Qed.

Lemma run_for_raises {A} (Q : CodeReviewer -> Prop) (l : list A) body x :
  (forall r found, Q r -> Q (add_issues found r)) ->
  (forall y, only_issues (body y)) ->
  (forall y r, y ∈ l -> Q r -> fst (run (body y) r) <> Diverges) ->
  (forall r, Q r -> exists e, fst (run (body x) r) = Raises e) ->
  x ∈ l ->
  forall r, Q r -> exists e, fst (run (for_ l body) r) = Raises e.
Proof.
  intros HQ Honly Hends Hx. induction l as [|y l IH]; intros Hin r Hr.
  { by apply elem_of_nil in Hin. }
  rewrite run_for_cons, run_bind. destruct (Honly y r) as (found & Hfound).
  pose proof (Hends y r ltac:(left) Hr) as Hend.
  destruct (run (body y) r) as [[[]| e|] r'] eqn:Hrun; simpl in *; [|eauto|done].
  apply elem_of_cons in Hin as [->|Hin].
  - destruct (Hx r Hr) as (e & He). rewrite Hrun in He. done.
  - subst r'. apply IH; [|done|by apply HQ].
    intros y' r'' Hy'. apply Hends. by right.
Qed.

Lemma run_check_unreachable_code_raises t r q m i f n :
  holds_linked t r ->
  node_at t q = Some m -> children m !! i = Some (f, n) ->
  cls n = ast_Return -> body_attr (cls m) = BodyList -> f <> "body" ->
  exists e, fst (run check_unreachable_code r) = Raises e.
Proof.
  intros [Ht Hp] Hm Hch Hn Hbody Hf. unfold check_unreachable_code.
  rewrite (run_bind_returns _ _ r (root t) r) by by apply run_self_tree.
  apply (run_for_raises (fun r => parent_attr r = linked t) _ _ (i :: q, n));
    [done| | | | |done].
  - intros y. destruct (cls (snd y)); only_issues_auto.
    apply unreachable_loop_only_issues.
  - intros [p n'] r' Hin Hr'. apply elem_of_walk in Hin. cbn [snd].
    destruct (cls n'); try done.
    rewrite (run_bind_returns _ _ r' (size (parent_attr r')) r') by done.
    apply (unreachable_loop_ends _ _ t); [done..|].
    rewrite Hr'. pose proof (linked_size t p n' Hin). lia.
  - intros r' Hr'. cbn [snd]. rewrite Hn. exists ValueError.
    by rewrite (run_unreachable_outside_body t r' i q n m f).
  - apply elem_of_walk. simpl. by rewrite Hm, Hch.
Qed.

Lemma run_check_unreachable_code_good t r :
  returns_in_bodies t = true -> holds_linked t r ->
  exists l, run check_unreachable_code r = (Returns tt, add_issues l r).
Proof.
  intros Hgood [Ht Hp]. unfold check_unreachable_code.
  rewrite (run_bind_returns _ _ r (root t) r) by by apply run_self_tree.
  assert (G : forall l, (forall o, o ∈ l -> o ∈ walk (root t)) ->
    forall r, parent_attr r = linked t ->
    exists found,
      run (for_ l (fun node =>
             match cls (snd node) with
             | ast_Return =>
                 k ← count_parent_attrs; unreachable_loop (S k) node node
             | _ => mret tt
             end)) r = (Returns tt, add_issues found r)).
  { clear r Ht Hp. induction l as [|[p n] l IH]; intros Hl r Hr.
    - exists []. by rewrite add_issues_nil.
    - assert (Hn : node_at t p = Some n) by (apply elem_of_walk, Hl; left).
      assert (exists found,
        run (match cls (snd (p, n)) with
             | ast_Return =>
                 k ← count_parent_attrs;
                 unreachable_loop (S k) (p, n) (p, n)
             | _ => mret tt
             end) r = (Returns tt, add_issues found r)) as (l1 & Hrun1).
      { cbn [snd]. destruct (cls n) eqn:Hc;
          try (exists []; by rewrite run_ret, add_issues_nil).
        by apply (run_unreachable_in_body t). }
      rewrite run_for_cons, (run_bind_returns _ _ _ _ _ Hrun1).
      destruct (IH (fun o Ho => Hl o (list_elem_of_further _ _ _ Ho))
                  (add_issues l1 r) Hr) as (l2 & Hrun2).
      exists (l1 ++ l2). by rewrite Hrun2, add_issues_app. }
  by apply G.
Qed.

Lemma rules_before_unreachable E code t :
  Forall (returns_on t) (take 9 (drop 1 (rule_catalog E code))).
Proof.
  unfold rule_catalog. cbn [take drop].
  constructor; [apply (returns_in_state t), (check_style_returns E code)|].
  constructor; [apply (returns_in_state t), (check_missing_docstrings_returns E)|].
  constructor; [apply (returns_in_state t), check_class_names_returns|].
  constructor; [apply (returns_in_state t), check_function_names_returns|].
  constructor; [apply (returns_in_state t), check_variable_names_returns|].
  constructor; [apply (returns_in_state t), check_constant_names_returns|].
  constructor; [apply (returns_in_state t), check_unused_imports_returns|].
  constructor; [apply (returns_in_state t), check_redefined_builtins_returns|].
  constructor; [apply (returns_in_state t), check_magic_methods_returns|].
  constructor.
Qed.

Lemma rules_return E code t :
  cls t = ast_Module -> returns_in_bodies t = true ->
  Forall (returns_on t) (drop 1 (rule_catalog E code)).
Proof.
  intros Hroot Hgood. unfold rule_catalog. cbn [drop].
  constructor; [apply (returns_in_state t), (check_style_returns E code)|].
  constructor; [apply (returns_in_state t), (check_missing_docstrings_returns E)|].
  constructor; [apply (returns_in_state t), check_class_names_returns|].
  constructor; [apply (returns_in_state t), check_function_names_returns|].
  constructor; [apply (returns_in_state t), check_variable_names_returns|].
  constructor; [apply (returns_in_state t), check_constant_names_returns|].
  constructor; [apply (returns_in_state t), check_unused_imports_returns|].
  constructor; [apply (returns_in_state t), check_redefined_builtins_returns|].
  constructor; [apply (returns_in_state t), check_magic_methods_returns|].
  constructor; [intros r [Ht Hp]; by apply (run_check_unreachable_code_good t)|].
  constructor; [apply (returns_in_state t), check_too_many_branches_returns|].
  constructor; [apply (returns_in_state t), check_too_many_arguments_returns|].
  constructor; [apply (returns_in_state t), check_nested_functions_returns|].
  constructor; [apply (returns_in_state t), check_empty_blocks_returns|].
  constructor; [intros r [Ht Hp]; eexists; by apply (run_check_break_outside_loop t)|].
  constructor; [intros r [Ht Hp]; eexists; by apply (run_check_continue_outside_loop t)|].
  constructor; [apply (returns_in_state t), check_raise_without_exception_returns|].
  constructor; [intros r [Ht Hp]; eexists; by apply (run_check_return_outside_function t)|].
  constructor; [apply (returns_in_state t), check_global_usage_returns|].
  constructor; [apply (returns_in_state t), check_nonlocal_usage_returns|].
  constructor; [apply (returns_in_state t), check_mutable_defaults_returns|].
  constructor; [apply (returns_in_state t), check_print_statements_returns|].
  constructor; [apply (returns_in_state t), check_exec_usage_returns|].
  constructor; [apply (returns_in_state t), check_eval_usage_returns|].
  constructor; [intros r [Ht Hp]; eexists; apply (run_check_pass_statements t); [done..|by rewrite Hroot]|].
  constructor; [apply (returns_in_state t), check_comment_format_returns|].
  constructor; [apply (returns_in_state t), (check_magic_number_returns E)|].
  constructor; [apply (returns_in_state t), check_boolean_traps_returns|].
  constructor; [apply (returns_in_state t), check_todo_comments_returns|].
  constructor; [apply (returns_in_state t), check_long_lines_returns|].
  constructor; [apply (returns_in_state t), check_multiple_imports_on_one_line_returns|].
  constructor; [apply (returns_in_state t), check_bad_indentation_returns|].
  constructor; [apply (returns_in_state t), check_semicolons_returns|].
  constructor; [apply (returns_in_state t), check_tabs_returns|].
  constructor; [apply (returns_in_state t), check_trailing_whitespace_returns|].
  constructor; [apply (returns_in_state t), check_multiple_statements_returns|].
  constructor; [apply (returns_in_state t), check_exception_handling_returns|].
  constructor; [apply (returns_in_state t), check_empty_exceptions_returns|].
  constructor; [apply (returns_in_state t), check_useless_else_on_loop_returns|].
  constructor; [apply (returns_in_state t), check_direct_exit_calls_returns|].
  constructor; [apply (returns_in_state t), check_recursion_limit_returns|].
  constructor; [apply (returns_in_state t), check_lambda_usage_returns|].
  constructor; [apply (returns_in_state t), check_format_vs_fstring_returns|].
  constructor; [apply (returns_in_state t), check_mutable_class_vars_returns|].
  constructor; [apply (returns_in_state t), check_inconsistent_return_returns|].
  constructor; [apply (returns_in_state t), check_wildcard_imports_returns|].
  constructor; [apply (returns_in_state t), check_multiple_consecutive_blank_lines_returns|].
  constructor; [apply (returns_in_state t), check_very_large_functions_returns|].
  constructor.
Qed.

Lemma loaded_holds_linked code t r :
  holds_linked t (with_parent_attr (linked t) (loaded code t r)).
Proof. done. Qed.

(** X3.  Whenever a text parses to a tree in which some [Return] is held by
    a node with a list of statements as [body], but in another field than
    [body] (the [orelse] of an [If], [For], [While] or [Try], the [finalbody]
    of a [Try]), [analyze] raises, from any state of the reviewer: the rules
    up to [check_unreachable_code] return, and that one does not. *)
Theorem return_outside_body_raises E code t r q m i f n :
  ast_parse E code = Parsed t ->
  node_at t q = Some m -> children m !! i = Some (f, n) ->
  cls n = ast_Return -> body_attr (cls m) = BodyList -> f <> "body" ->
  exists e, fst (run (analyze E code) r) = Raises e.
Proof.
  intros Hparse Hm Hch Hn Hbody Hf.
  rewrite (run_analyze_parsed E code t r Hparse).
  change (rule_catalog E code)
    with (check_line_numbers :: drop 1 (rule_catalog E code)).
  cbn [run_all foldr].
  rewrite (run_bind_returns _ _ _ _ _
             (run_check_line_numbers (loaded code t r) t eq_refl)).
  fold (run_all (drop 1 (rule_catalog E code))).
  rewrite <- (take_drop 9 (drop 1 (rule_catalog E code))), run_all_app.
  destruct (run_all_returns t _ (rules_before_unreachable E code t) _
              (loaded_holds_linked code t r)) as (l & Hrun).
  rewrite (run_bind_returns _ _ _ _ _ Hrun).
  cbn [rule_catalog drop run_all foldr]. rewrite run_bind.
  destruct (run_check_unreachable_code_raises t
              (add_issues l (with_parent_attr (linked t) (loaded code t r)))
              q m i f n) as (e & He); [done..|].
  exists e. destruct (run check_unreachable_code _) as [[?|?|] ?]; by simplify_eq/=.
Qed.

Lemma return_outside_body_raises_witness :
  ast_parse sample src_else_return = Parsed tree_else_return /\
  exists e,
    fst (run (analyze sample src_else_return) new_reviewer) = Raises e.
Proof.
  split; [reflexivity|].
  apply (return_outside_body_raises sample src_else_return tree_else_return
           new_reviewer [1; 0]
           (Build.mk_If 2 (Build.mk_Name 2 "x" ast_Load) [Build.mk_Pass 3]
              [Build.mk_Return 5 None])
           2 "orelse" (Build.mk_Return 5 None));
    first [reflexivity | discriminate].
Defined.



(** ** The lines of the text *)

Lemma split_not_nil sep s : PyStr.split sep s <> [].
Proof.
  destruct s as [|c s]; simpl; [done|].
  destruct (Ascii.eqb c sep); [done|]. by destruct (PyStr.split sep s).
Qed.

Lemma split_concat sep s :
  String.concat (String sep "") (PyStr.split sep s) = s.
Proof.
  induction s as [|c s IH]; [done|]. simpl.
  destruct (Ascii.eqb c sep) eqn:Hc.
  - apply Ascii.eqb_eq in Hc as ->. pose proof (split_not_nil sep s) as Hne.
    simpl. destruct (PyStr.split sep s) as [|w ws]; [done|].
    simpl in *. by rewrite IH.
  - pose proof (split_not_nil sep s) as Hne.
    destruct (PyStr.split sep s) as [|w ws]; [done|]. simpl in *.
    destruct ws; simpl in *; by rewrite <- IH.
Qed.

Lemma split_length sep s :
  length (PyStr.split sep s) = S (PyStr.count sep s).
Proof.
  induction s as [|c s IH]; [done|]. cbn [PyStr.split PyStr.count].
  rewrite (Ascii.eqb_sym sep c).
  destruct (Ascii.eqb c sep); [simpl; by rewrite IH|].
  pose proof (split_not_nil sep s) as Hne.
  destruct (PyStr.split sep s) as [|w ws]; [done|]. simpl in *. lia.
Qed.

Lemma split_no_sep sep s :
  Forall (fun w => PyStr.count sep w = 0) (PyStr.split sep s).
Proof.
  induction s as [|c s IH]; simpl; [by repeat constructor|].
  destruct (Ascii.eqb c sep) eqn:Hc; [by constructor|].
  pose proof (split_not_nil sep s) as Hne.
  destruct (PyStr.split sep s) as [|w ws]; [done|].
  apply Forall_cons in IH as [Hw Hws]. constructor; [|done].
  simpl. rewrite Ascii.eqb_sym, Hc. done.
Qed.

(** X6.  [load_code] keeps the text: joined again by newlines the lines
    give the text back, character for character; no line holds a newline;
    there is one line more than there are newlines in the text (so at least
    one, also for the empty text); and nothing else of the reviewer
    changes. *)
Theorem load_code_keeps_the_text code r :
  run (load_code code) r
    = (Returns tt,
       mkCodeReviewer (issues r) (PyStr.split "010" code) (tree r) (parent_attr r)) /\
  String.concat Samples.nl (PyStr.split "010" code) = code /\
  Forall (fun line => PyStr.count "010" line = 0) (PyStr.split "010" code) /\
  length (PyStr.split "010" code) = S (PyStr.count "010" code).
Proof.
  split_and!; [done|apply split_concat|apply split_no_sep|apply split_length].
Qed.

(** ** The rule on the names of constants *)

Lemma star_all p k s :
  PyStr.forallb p s = true -> k "" = true -> Re.star p k s = true.
Proof.
  intros Hs Hk. apply star_spec. exists s, "". split_and!; [|done..].
  clear. induction s as [|c s IH]; [done|].
  change (String c s +:+ "") with (String c (s +:+ "")). by f_equal.
Qed.

Lemma uppercase_identifier_matches id :
  identifier_chars id = true -> PyStr.isupper id = true ->
  Re.re_match Re.constant_name_pattern id = true.
Proof.
  unfold identifier_chars, PyStr.isupper. intros Hid [Hlow Hup]%andb_prop.
  apply negb_true_iff in Hlow.
  assert (Hall : PyStr.forallb
            (fun c => PyStr.is_upper c || PyStr.is_digit c || PyStr.is_underscore c)
            id = true).
  { clear Hup. induction id as [|c id IH]; [done|]. simpl in *.
    apply andb_prop in Hid as [Hc Hid]. apply orb_false_elim in Hlow as [Hc' Hlow].
    rewrite (IH Hid Hlow), andb_true_r. unfold PyStr.is_alnum in Hc.
    rewrite Hc' in Hc. by rewrite orb_false_r in Hc. }
  unfold Re.constant_name_pattern. cbn [Re.re_match].
  destruct id as [|c id]; [done|]. simpl in Hall.
  apply andb_prop in Hall as [-> Hall]. simpl. by apply star_all.
Qed.

Lemma run_for_skip {A} (l : list A) body r :
  (forall x, x ∈ l -> forall r, run (body x) r = (Returns tt, r)) ->
  run (for_ l body) r = (Returns tt, r).
Proof.
  induction l as [|x l IH]; intros Hbody; [done|].
  rewrite run_for_cons, (run_bind_returns _ _ r tt r) by (apply Hbody; left).
  apply IH. intros y Hy. apply Hbody. by right.
Qed.

Lemma attr_node_at t f o c :
  node_at t (fst o) = Some (snd o) -> c ∈ attr f o ->
  node_at t (fst c) = Some (snd c).
Proof.
  intros Ho (i & Hch & ->)%elem_of_attr. simpl. by rewrite Ho, Hch.
Qed.

(** X7.  [check_constant_names] never reports a name written with ASCII
    letters, digits and underscores: such a name, when [isupper] accepts it,
    matches the pattern of the rule.  On a tree all of whose names are written
    that way the rule returns and leaves the reviewer as it was. *)
Theorem constant_names_rule_is_silent t r :
  tree r = Some t ->
  (forall p n id, node_at t p = Some n -> cls n = ast_Name id ->
                  identifier_chars id = true) ->
  run check_constant_names r = (Returns tt, r).
Proof.
  intros Ht Hnames. unfold check_constant_names.
  rewrite (run_bind_returns _ _ r (root t) r) by by apply run_self_tree.
  apply run_for_skip. intros [p n] Hin r'. apply elem_of_walk in Hin. cbn [snd].
  destruct (cls n); try done.
  apply run_for_skip. intros [p' n'] Hin' r''.
  apply (attr_node_at t) in Hin'; [|done]. cbn [fst snd] in *.
  destruct (cls n') eqn:Hc; try done.
  destruct (PyStr.isupper id) eqn:Hup; [|done].
  by rewrite (uppercase_identifier_matches id (Hnames _ _ _ Hin' Hc) Hup).
Qed.

Lemma constant_names_rule_is_silent_witness :
  tree (parsed tree_constant new_reviewer) = Some tree_constant /\
  PyStr.isupper "MAX_SIZE" = true /\
  run check_constant_names (parsed tree_constant new_reviewer)
  = (Returns tt, parsed tree_constant new_reviewer).
Proof.
  split; [reflexivity|]. split; [reflexivity|].
  apply (constant_names_rule_is_silent tree_constant); [reflexivity|].
  intros p n id Hn Hc. apply elem_of_walk in Hn.
  vm_compute in Hn.
  repeat (apply elem_of_cons in Hn as [Hn|Hn];
          [injection Hn as -> ->; try discriminate Hc;
           injection Hc as <-; reflexivity|]).
  by apply elem_of_nil in Hn.
Defined.

(** ** Imports without a module *)

(** X11.  [from . import x], whose node has no module, is recorded under
    the empty name, which no name of the tree can be: whenever the tree holds
    such a node, [check_unused_imports] returns and one of the diagnostics it
    appends is the unused import of ''. *)
Theorem relative_import_is_always_reported t r p n :
  tree r = Some t ->
  node_at t p = Some n -> cls n = ast_ImportFrom None ->
  (forall p' n', node_at t p' = Some n' -> cls n' <> ast_Name "") ->
  exists found,
    run check_unused_imports r = (Returns tt, add_issues found r) /\
    "Unused import ''." ∈ found.
Proof.
  intros Ht Hn Hc Hnames. exists (unused_imports t).
  split; [by apply run_check_unused_imports|].
  unfold unused_imports. apply list_elem_of_bind. exists "". split.
  - rewrite bool_decide_false; [left|].
    unfold names_read. rewrite list_elem_of_omap.
    intros ([p' n'] & Hin & Hname). apply elem_of_walk in Hin.
    unfold name_in_ctx in Hname. simpl in Hname.
    destruct (cls n') eqn:Hc'; try done.
    destruct (field_isinstance _ _ _); simplify_eq. by apply (Hnames p' n').
  - unfold imported_modules. apply list_elem_of_bind. exists (p, n).
    split; [|by apply elem_of_walk].
    unfold recorded_imports. simpl. rewrite Hc. left.
Qed.

Lemma relative_import_is_always_reported_witness :
  exists found,
    run check_unused_imports
        (parsed (Build.mk_Module [Build.mk_ImportFrom 1 None [Build.mk_alias 1 "x" None]])
           new_reviewer)
    = (Returns tt,
       add_issues found
         (parsed (Build.mk_Module [Build.mk_ImportFrom 1 None [Build.mk_alias 1 "x" None]])
            new_reviewer)) /\
    "Unused import ''." ∈ found.
Proof.
  apply (relative_import_is_always_reported
           (Build.mk_Module [Build.mk_ImportFrom 1 None [Build.mk_alias 1 "x" None]])
           _ [0] (Build.mk_ImportFrom 1 None [Build.mk_alias 1 "x" None]));
    [reflexivity..|].
  intros p' n' Hn Hc. apply elem_of_walk in Hn. vm_compute in Hn.
  repeat (apply elem_of_cons in Hn as [Hn|Hn];
          [injection Hn as -> ->; discriminate Hc|]).
  by apply elem_of_nil in Hn.
Defined.

(** ** A text without statements *)

Lemma run_check_empty_blocks_module l r :
  tree r = Some (Node ast_Module l []) ->
  run check_empty_blocks r = (Returns tt, add_issues ["Empty block at line ?."] r).
Proof.
  intros Ht. unfold check_empty_blocks.
  by rewrite (run_bind_returns _ _ r (root (Node ast_Module l [])) r)
    by by apply run_self_tree.
Qed.

(** X12.  A text that parses to a module without statements (the empty
    text, blank lines, comments only) always gets the diagnostic of an empty
    block, with a question mark for the line it has not. *)
Theorem empty_module_is_flagged E code l r :
  ast_parse E code = Parsed (Node ast_Module l []) ->
  "Empty block at line ?." ∈ get_issues (snd (run (analyze E code) r)).
Proof.
  intros Hparse. set (t := Node ast_Module l []) in *.
  rewrite (run_analyze_parsed E code t r Hparse).
  change (rule_catalog E code)
    with (check_line_numbers :: drop 1 (rule_catalog E code)).
  cbn [run_all foldr].
  rewrite (run_bind_returns _ _ _ _ _
             (run_check_line_numbers (loaded code t r) t eq_refl)).
  fold (run_all (drop 1 (rule_catalog E code))).
  rewrite <- (take_drop 13 (drop 1 (rule_catalog E code))), run_all_app.
  destruct (run_all_returns t (take 13 (drop 1 (rule_catalog E code)))) with
    (r := with_parent_attr (linked t) (loaded code t r)) as (l1 & Hrun1).
  { apply Forall_take, rules_return; reflexivity. }
  { apply loaded_holds_linked. }
  rewrite (run_bind_returns _ _ _ _ _ Hrun1).
  change (drop 13 (drop 1 (rule_catalog E code)))
    with (check_empty_blocks :: drop 15 (rule_catalog E code)).
  cbn [run_all foldr].
  rewrite (run_bind_returns _ _ _ _ _
             (run_check_empty_blocks_module l
                (add_issues l1 (with_parent_attr (linked t) (loaded code t r)))
                eq_refl)).
  fold (run_all (drop 15 (rule_catalog E code))).
  destruct (run_all_append_only catalogued (drop 15 (rule_catalog E code)))
    as [Hprefix _].
  { apply Forall_drop, rule_catalog_append_only. }
  destruct (Hprefix (add_issues ["Empty block at line ?."]
                       (add_issues l1
                          (with_parent_attr (linked t) (loaded code t r)))))
    as (l2 & Hl2 & _).
  unfold get_issues. rewrite Hl2. simpl.
  rewrite !elem_of_app, elem_of_cons. tauto.
Qed.

Lemma empty_module_is_flagged_witness :
  ast_parse sample_empty "" = Parsed (Node ast_Module 0 []) /\
  "Empty block at line ?."
    ∈ get_issues (snd (run (analyze sample_empty "") new_reviewer)).
Proof.
  split; [reflexivity|].
  apply (empty_module_is_flagged sample_empty "" 0 new_reviewer). reflexivity.
Defined.

(** ** Branches of nested functions *)

Lemma foldl_tally l a :
  foldl (fun branches subnode : _ =>
           if is_branch (cls (snd subnode)) then branches + 1 else branches) a l
  = a + tally l.
Proof.
  revert a. induction l as [|o l IH]; intros a; simpl; [lia|].
  rewrite IH. unfold tally. destruct (is_branch _); simpl; lia.
Qed.

Lemma tally_submseteq l1 l2 : l1 ⊆+ l2 -> tally l1 <= tally l2.
Proof.
  unfold tally. induction 1; simpl in *; lia.
Qed.

Lemma submseteq_bind_elem {A B} (f : A -> list B) l x :
  x ∈ l -> f x ⊆+ l ≫= f.
Proof.
  induction l as [|y l IH]; [by intros ?%elem_of_nil|].
  rewrite bind_cons. intros [->|Hx]%elem_of_cons.
  - by apply submseteq_inserts_r.
  - by apply submseteq_inserts_l, IH.
Qed.

Lemma subtree_submseteq p n o :
  o ∈ subtree p n -> subtree (fst o) (snd o) ⊆+ subtree p n.
Proof.
  revert p. induction n as [c l ch IH] using node_induction. intros p.
  rewrite (subtree_unfold p). intros [->|Hin]%elem_of_cons.
  - simpl. by rewrite <- subtree_unfold.
  - apply submseteq_cons. apply elem_of_subtrees in Hin as ([pk k] & Hk & Hin).
    etrans; [|apply (submseteq_bind_elem _ _ (pk, k) Hk)].
    apply iter_child_nodes_lookup in Hk as (j & g & Hj & Hp). simpl in *.
    rewrite Forall_forall in IH. apply (IH (g, k)); [|done].
    apply list_elem_of_lookup. eauto.
Qed.

Lemma walk_submseteq outer inner :
  inner ∈ walk outer -> walk inner ⊆+ walk outer.
Proof.
  rewrite !walk_subtree. apply subtree_submseteq.
Qed.

Lemma run_check_too_many_branches t r :
  tree r = Some t ->
  run check_too_many_branches r = (Returns tt, add_issues (too_many_branches t) r).
Proof.
  intros Ht. unfold check_too_many_branches.
  rewrite (run_bind_returns _ _ r (root t) r) by by apply run_self_tree.
  apply (run_for_appends (fun _ => True)); [done| |done].
  intros o r' _ _. cbv beta zeta. fold (branches o).
  destruct (cls (snd o)); cbv beta iota; try by rewrite run_ret, add_issues_nil.
  all: destruct (10 <? branches o); unfold when;
    [apply run_append | by rewrite run_ret, add_issues_nil].
Qed.

(** X13.  [check_too_many_branches] returns and reports the functions with
    more than ten branching nodes in their subtree.  The subtree of a
    function holds the functions defined in it, so the count for a node is
    never less than the count for a node below it: when a nested function is
    reported, so is every function around it. *)
Theorem nested_branches_are_counted_again t r :
  tree r = Some t ->
  run check_too_many_branches r
    = (Returns tt, add_issues (too_many_branches t) r) /\
  (forall outer inner, inner ∈ walk outer -> branches inner <= branches outer) /\
  (forall outer inner,
     inner ∈ walk outer -> (10 <? branches inner) = true ->
     (10 <? branches outer) = true).
Proof.
  intros Ht.
  assert (Hmono : forall outer inner,
            inner ∈ walk outer -> branches inner <= branches outer).
  { intros outer inner Hin. unfold branches. rewrite !foldl_tally.
    apply tally_submseteq, walk_submseteq, Hin. }
  split_and!; [by apply run_check_too_many_branches|done|].
  intros outer inner Hin Hlt. apply Nat.ltb_lt in Hlt. apply Nat.ltb_lt.
  specialize (Hmono outer inner Hin). lia.
Qed.

Lemma nested_branches_are_counted_again_witness :
  tree (parsed tree_break_in_if_in_for new_reviewer) = Some tree_break_in_if_in_for /\
  run check_too_many_branches (parsed tree_break_in_if_in_for new_reviewer)
    = (Returns tt,
       add_issues (too_many_branches tree_break_in_if_in_for)
         (parsed tree_break_in_if_in_for new_reviewer)).
Proof.
  split; [reflexivity|].
  apply (nested_branches_are_counted_again tree_break_in_if_in_for
           (parsed tree_break_in_if_in_for new_reviewer)).
  reflexivity.
Defined.
